(** * loc_dashboard.extractor: monthly lines-of-code snapshots

    A shallow embedding of [src/loc_dashboard/extractor.py] and the
    properties of its specification.

    Modelling conventions.
    - A Python [str] is a [string]; a character is a code point below 256.
    - A Python [int] is a [Z]; a [dict] with string keys is a [gmap string _];
      a [float] is taken as the exact rational it is nearest to, and a
      quotient too large for a float raises [OverflowError].
    - A Python exception is a constructor of [exn]; code that may raise
      returns an [outcome], and nothing in the module catches an exception.
    - The operating system (the file system and the external processes
      [git] and [cloc]) is a [World]: the embedding is parametric in what
      the processes answer. A process is taken to write no file itself.
    - The interpreter is CPython 3.11 with its defaults. *)

From stdpp Require Import gmap strings list sorting pretty.
From Stdlib Require Import Ascii.
From Stdlib Require Qcanon.

Local Open Scope Z_scope.

(** ** Python string primitives *)

Module PyStr.

Definition ord (c : ascii) : N := N_of_ascii c.

(** [str.isspace] on one character: TAB..CR, FS..US, space, NEL, NBSP. *)
Definition isspace (c : ascii) : bool :=
  let n := ord c in
  ((9 <=? n) && (n <=? 13) || (28 <=? n) && (n <=? 32)
   || (n =? 133) || (n =? 160))%N.

(** Line boundaries of [str.splitlines]: LF, VT, FF, CR, FS, GS, RS, NEL
    (CR LF counts once, see [splitlines_go]). *)
Definition islinebreak (c : ascii) : bool :=
  let n := ord c in
  ((10 <=? n) && (n <=? 13) || (28 <=? n) && (n <=? 30) || (n =? 133))%N.

(** Decimal digits accepted by [int]. *)
Definition isdecimal (c : ascii) : bool :=
  let n := ord c in ((48 <=? n) && (n <=? 57))%N.

(** [str.isdigit] on one character: the decimal digits and the
    superscripts one, two and three. *)
Definition isdigit (c : ascii) : bool :=
  let n := ord c in
  (isdecimal c || (n =? 178) || (n =? 179) || (n =? 185))%N.

Fixpoint lstrip_by (p : ascii → bool) (s : string) : string :=
  match s with
  | "" => ""
  | String c s' => if p c then lstrip_by p s' else s
  end.

Fixpoint rstrip_by (p : ascii → bool) (s : string) : string :=
  match s with
  | "" => ""
  | String c s' =>
      match rstrip_by p s' with
      | "" => if p c then "" else String c ""
      | r => String c r
      end
  end.

(** [s.strip()] *)
Definition strip (s : string) : string :=
  rstrip_by isspace (lstrip_by isspace s).

Fixpoint mem (c : ascii) (chars : string) : bool :=
  match chars with
  | "" => false
  | String d chars' => if Ascii.eqb c d then true else mem c chars'
  end.

(** [s.strip(chars)] *)
Definition strip_chars (chars s : string) : string :=
  rstrip_by (λ c, mem c chars) (lstrip_by (λ c, mem c chars) s).

(** [s.splitlines()]: [cur] is the line being read, reversed; [cr] tells
    that the previous character was a carriage return. *)
Fixpoint splitlines_go (cur : string) (cr : bool) (s : string) : list string :=
  match s with
  | "" => if String.eqb cur "" then [] else [String.rev cur]
  | String c s' =>
      if cr && Ascii.eqb c "010"%char then splitlines_go cur false s'
      else if islinebreak c
           then String.rev cur :: splitlines_go "" (Ascii.eqb c "013"%char) s'
           else splitlines_go (String c cur) false s'
  end.

Definition splitlines (s : string) : list string := splitlines_go "" false s.

(** [s.split()]: maximal runs of characters that are not white space. *)
Fixpoint split (s : string) : list string :=
  match s with
  | "" => []
  | String c s' =>
      if isspace c then split s'
      else match s' with
           | "" => [String c ""]
           | String d _ =>
               if isspace d then String c "" :: split s'
               else match split s' with
                    | w :: ws => String c w :: ws
                    | [] => [String c ""]
                    end
           end
  end.

(** [s.split(sep)] for a separator of one character. *)
Fixpoint split_on (sep : ascii) (s : string) : list string :=
  match s with
  | "" => [""]
  | String c s' =>
      if Ascii.eqb c sep then "" :: split_on sep s'
      else match split_on sep s' with
           | w :: ws => String c w :: ws
           | [] => [String c ""]
           end
  end.

(** [s.startswith(p)] *)
Definition startswith (p s : string) : bool := String.prefix p s.

(** [s[:n]] *)
Definition upto (n : nat) (s : string) : string := String.substring 0 n s.

Definition digit_val (c : ascii) : option Z :=
  if isdecimal c then Some (Z.of_N (ord c) - 48) else None.

(** The digits of an [int] literal: single underscores are allowed
    between digits. [prev] tells that the previous character was a digit. *)
Fixpoint int_digits (acc : Z) (prev : bool) (s : string) : option Z :=
  match s with
  | "" => if prev then Some acc else None
  | String c s' =>
      if Ascii.eqb c "_"%char then
        if prev then int_digits acc false s' else None
      else match digit_val c with
           | Some d => int_digits (10 * acc + d) true s'
           | None => None
           end
  end.

(** The white space that [int] skips at either end: TAB..CR and the space,
    and NEL and NBSP, which it reads as spaces. The separators FS..US are
    white space for [str.strip] but not here. *)
Definition int_space (c : ascii) : bool :=
  let n := ord c in
  ((9 <=? n) && (n <=? 13) || (n =? 32) || (n =? 133) || (n =? 160))%N.

(** The number of decimal digits in [s]. *)
Fixpoint count_digits (s : string) : nat :=
  match s with
  | "" => 0%nat
  | String c s' => ((if isdecimal c then 1 else 0) + count_digits s')%nat
  end.

(** [sys.get_int_max_str_digits()], which the program leaves at its
    default. *)
Definition int_max_str_digits : nat := 4300.

(** [int(s)] in base ten; [None] stands for [ValueError], which a literal
    of more than [int_max_str_digits] digits raises too. *)
Definition int (s : string) : option Z :=
  let literal := rstrip_by int_space (lstrip_by int_space s) in
  if bool_decide (int_max_str_digits < count_digits literal)%nat then None
  else match literal with
       | String "+"%char r => int_digits 0 false r
       | String "-"%char r => Z.opp <$> int_digits 0 false r
       | r => int_digits 0 false r
       end.

End PyStr.

(** ** Exceptions and results *)

Inductive exn : Type :=
  | RuntimeError (msg : string)
  | TimeoutExpired (cmd : list string)
  | OSError (msg : string)
  | IndexError
  | ValueError
  | KeyError (key : string)
  | ZeroDivisionError
  | OverflowError.

Inductive outcome (A : Type) : Type :=
  | Ok (a : A)
  | Raise (e : exn).
Arguments Ok {A} a.
Arguments Raise {A} e.

Global Instance outcome_ret : MRet outcome := λ A a, Ok a.
Global Instance outcome_bind : MBind outcome := λ A B k m,
  match m with
  | Ok a => k a
  | Raise e => Raise e
  end.

(** [o] or, when [o] is missing, the exception [e]. *)
Definition or_raise {A} (e : exn) (o : option A) : outcome A :=
  match o with
  | Some a => Ok a
  | None => Raise e
  end.

(** [l[i]] on a list and [s[i]] on a string. *)
Definition getitem {A} (l : list A) (i : nat) : outcome A :=
  or_raise IndexError (l !! i).
Definition getchar (s : string) (i : nat) : outcome ascii :=
  or_raise IndexError (String.get i s).

(** A [for] loop over [l] that threads the loop state [s]. *)
Fixpoint for_each {A S} (body : S → A → outcome S) (s : S) (l : list A) : outcome S :=
  match l with
  | [] => Ok s
  | x :: l' => s' ← body s x; for_each body s' l'
  end.

(** [[f(x) for x in l]] *)
Fixpoint for_list {A B} (f : A → outcome B) (l : list A) : outcome (list B) :=
  match l with
  | [] => Ok []
  | x :: l' => y ← f x; ys ← for_list f l'; mret (y :: ys)
  end.

(** [sorted] on strings: ascending by code points. *)
Definition sorted (l : list string) : list string := merge_sort String.le l.

(** ** Dates *)

(** A [datetime]; [dt_tzinfo] is the offset from UTC in minutes, [None]
    for a naive value. *)
Record datetime : Type := {
  dt_year : Z; dt_month : Z; dt_day : Z;
  dt_hour : Z; dt_minute : Z; dt_second : Z;
  dt_tzinfo : option Z
}.

Module Iso.

Definition digits2 (s : string) : option (Z * string) :=
  match s with
  | String a (String b r) =>
      x ← PyStr.digit_val a; y ← PyStr.digit_val b; Some (10 * x + y, r)
  | _ => None
  end.

Definition digits4 (s : string) : option (Z * string) :=
  '(hi, r) ← digits2 s; '(lo, r) ← digits2 r; Some (100 * hi + lo, r).

Definition expect (c : ascii) (s : string) : option string :=
  match s with
  | String d r => if Ascii.eqb c d then Some r else None
  | "" => None
  end.

Definition is_leap (y : Z) : bool :=
  (y mod 4 =? 0) && (negb (y mod 100 =? 0) || (y mod 400 =? 0)).

Definition days_in_month (y m : Z) : Z :=
  if m =? 2 then (if is_leap y then 29 else 28)
  else if (m =? 4) || (m =? 6) || (m =? 9) || (m =? 11) then 30
  else 31.

Definition check (b : bool) : option unit := if b then Some tt else None.

(** The UTC offset, [+HH:MM] or [-HH:MM], or nothing. *)
Definition offset (s : string) : option (option Z) :=
  match s with
  | "" => Some None
  | String sg r =>
      sign ← (if Ascii.eqb sg "+"%char then Some 1
              else if Ascii.eqb sg "-"%char then Some (-1) else None);
      '(h, r) ← digits2 r; r ← expect ":"%char r; '(m, r) ← digits2 r;
      _ ← check (String.eqb r "" && (h <? 24) && (m <? 60));
      Some (Some (sign * (60 * h + m)))
  end.

(** [datetime.fromisoformat] on [YYYY-MM-DD] and on
    [YYYY-MM-DD*HH:MM:SS] with an optional UTC offset, where [*] is any
    one character: the forms the fields of git's [%ai] dates take, on
    which the result is the library's. [None] stands for [ValueError].
    The library accepts more (a time without seconds, fractions of a
    second, [Z], the basic format, week dates): these are not modelled and
    give [None] too, so that a property is stated of lines of git's form,
    or of a string too short to be a date. *)
Definition fromisoformat (s : string) : option datetime :=
  '(y, r) ← digits4 s; r ← expect "-"%char r;
  '(m, r) ← digits2 r; r ← expect "-"%char r;
  '(d, r) ← digits2 r;
  _ ← check ((1 <=? y) && (1 <=? m) && (m <=? 12) && (1 <=? d)
             && (d <=? days_in_month y m));
  match r with
  | "" => Some {| dt_year := y; dt_month := m; dt_day := d; dt_hour := 0;
                  dt_minute := 0; dt_second := 0; dt_tzinfo := None |}
  | String _ r =>
      '(h, r) ← digits2 r; r ← expect ":"%char r;
      '(mi, r) ← digits2 r; r ← expect ":"%char r;
      '(sec, r) ← digits2 r;
      tz ← offset r;
      _ ← check ((h <? 24) && (mi <? 60) && (sec <? 60));
      Some {| dt_year := y; dt_month := m; dt_day := d; dt_hour := h;
              dt_minute := mi; dt_second := sec; dt_tzinfo := tz |}
  end.

End Iso.

(** ** The commit selector, on the lines of [git log] *)

(** The dictionary [{"hash": .., "date": .., "month": ..}] of one month. *)
Record entry : Type := {
  entry_hash : string;
  entry_date : datetime;
  entry_month : string
}.

(** The body of the loop of [get_monthly_commits] on one line. *)
Definition read_commit (line : string) : outcome entry :=
  let parts := PyStr.split line in
  commit_hash ← getitem parts 0;
  date_str ← getitem parts 1;
  let month := PyStr.upto 7 date_str in
  p1 ← getitem parts 1;
  p2 ← getitem parts 2;
  commit_date ← or_raise ValueError (Iso.fromisoformat (p1 +:+ "T" +:+ p2));
  mret {| entry_hash := commit_hash; entry_date := commit_date; entry_month := month |}.

Definition monthly_step (monthly : gmap string entry) (line : string)
  : outcome (gmap string entry) :=
  e ← read_commit line;
  mret (<[entry_month e := e]> monthly).

Definition keys {V} (d : gmap string V) : list string := (map_to_list d).*1.

(** [get_monthly_commits] from the output of [git log] on. *)
Definition monthly_commits (out : string) : outcome (list entry) :=
  monthly ← for_each monthly_step ∅ (PyStr.splitlines (PyStr.strip out));
  for_list (λ k, or_raise (KeyError k) (monthly !! k)) (sorted (keys monthly)).

(** ** The adapter of the counting tool, on the output of [cloc] *)

(** One line of the CSV: [None] when the loop goes on to the next line
    ([continue]), the language and its code count otherwise. *)
Definition read_row (line : string) : outcome (option (string * Z)) :=
  if PyStr.startswith "files" line then mret None
  else
    c ← getchar line 0;
    if negb (PyStr.isdigit c) then mret None
    else
      let parts := PyStr.split_on ","%char line in
      if bool_decide (length parts < 5)%nat then mret None
      else
        lang ← getitem parts 1;
        field ← getitem parts 4;
        code ← or_raise ValueError (PyStr.int field);
        mret (Some (lang, code)).

Definition count_row (acc : Z * gmap string Z) (row : option (string * Z))
  : Z * gmap string Z :=
  match row with
  | None => acc
  | Some (lang, code) =>
      if String.eqb lang "SUM" then (code, acc.2)
      else (acc.1, <[lang := code]> acc.2)
  end.

Definition cloc_step (acc : Z * gmap string Z) (line : string)
  : outcome (Z * gmap string Z) :=
  row ← read_row line;
  mret (count_row acc row).

(** The parsing loop of [_cloc_from_archive]: [(total, by_lang)]. *)
Definition parse_cloc (out : string) : outcome (Z * gmap string Z) :=
  for_each cloc_step (0, ∅) (PyStr.splitlines (PyStr.strip out)).

(** ** The operating system *)

(** What [subprocess.run] returns. *)
Record CompletedProcess : Type := {
  returncode : Z;
  stdout : string;
  stderr : string
}.

(** What a run does that can be observed from outside: the processes it
    starts and the progress notifications it sends. *)
Inductive event : Type :=
  | Spawn (cmd : list string) (cwd : option string)
  | Progress (i n : nat) (month : string).

Global Instance event_eq_dec : EqDecision event.
Proof. solve_decision. Defined.

Record OS : Type := {
  files : gmap string string;
  trace : list event
}.

(** The environment: [spawn fs cmd cwd timeout] is what running [cmd] does
    on the file system [fs], either a completed process or an exception
    ([TimeoutExpired], [OSError]); [mkstemp fs suffix] is the name the
    system picks for a new temporary file. A process reads the files and
    prints: it is taken to write none itself, as [git log], [git ls-tree],
    [git archive] to its standard output, and [cloc] do on the commands of
    this program when no argument of theirs is read as an option. *)
Record World : Type := {
  spawn : gmap string string → list string → option string → Z → outcome CompletedProcess;
  mkstemp : gmap string string → string → string
}.

(** Computations that act on the operating system and may raise. *)
Definition M (A : Type) : Type := OS → outcome A * OS.

Global Instance M_ret : MRet M := λ A a os, (Ok a, os).
Global Instance M_bind : MBind M := λ A B k m os,
  match m os with
  | (Ok a, os') => k a os'
  | (Raise e, os') => (Raise e, os')
  end.

Definition raise {A} (e : exn) : M A := λ os, (Raise e, os).
Definition lift {A} (o : outcome A) : M A := λ os, (o, os).

(** [try: body finally: cleanup] *)
Definition try_finally {A} (body : M A) (cleanup : M unit) : M A := λ os,
  let '(r, os1) := body os in
  match cleanup os1 with
  | (Ok _, os2) => (r, os2)
  | (Raise e, os2) => (Raise e, os2)
  end.

Fixpoint forM {A S} (body : S → A → M S) (s : S) (l : list A) : M S :=
  match l with
  | [] => mret s
  | x :: l' => s' ← body s x; forM body s' l'
  end.

(** [for i, x in enumerate(l)], collecting what each round appends. *)
Fixpoint for_enumerate {A B} (body : nat → A → M B) (i : nat) (l : list A) : M (list B) :=
  match l with
  | [] => mret []
  | x :: l' => y ← body i x; ys ← for_enumerate body (S i) l'; mret (y :: ys)
  end.

Definition log (e : event) : M unit := λ os,
  (Ok tt, {| files := files os; trace := trace os ++ [e] |}).
Definition get_files : M (gmap string string) := λ os, (Ok (files os), os).
Definition set_files (fs : gmap string string) : M unit := λ os,
  (Ok tt, {| files := fs; trace := trace os |}).

Section Pipeline.

Variable W : World.

(** [subprocess.run(cmd, capture_output=True, text=True, cwd=cwd,
    timeout=timeout)] *)
Definition subprocess_run (cmd : list string) (cwd : option string) (timeout : Z)
  : M CompletedProcess :=
  _ ← log (Spawn cmd cwd);
  fs ← get_files;
  lift (spawn W fs cmd cwd timeout).

(** [with open(path, "wb") as f: subprocess.run(cmd, stdout=f, ...)]:
    the file is truncated, then receives what the process prints. *)
Definition subprocess_run_to (path : string) (cmd : list string)
    (cwd : option string) (timeout : Z) : M CompletedProcess :=
  fs ← get_files;
  _ ← set_files (<[path := ""]> fs);
  proc ← subprocess_run cmd cwd timeout;
  _ ← set_files (<[path := stdout proc]> (<[path := ""]> fs));
  mret {| returncode := returncode proc; stdout := ""; stderr := stderr proc |}.

(** [tempfile.NamedTemporaryFile(suffix=suffix, delete=False)], closed
    at once: an empty file under a new name. *)
Definition NamedTemporaryFile (suffix : string) : M string :=
  fs ← get_files;
  let name := mkstemp W fs suffix in
  _ ← set_files (<[name := ""]> fs);
  mret name.

Definition path_exists (path : string) : M bool :=
  fs ← get_files; mret (bool_decide (is_Some (fs !! path))).
Definition unlink (path : string) : M unit :=
  fs ← get_files; set_files (delete path fs).

(** [_run(cmd, cwd, timeout=300)] *)
Definition _run (cmd : list string) (cwd : string) : M CompletedProcess :=
  subprocess_run cmd (Some cwd) 300.

(** [get_monthly_commits(repo_path, branch)] *)
Definition get_monthly_commits (repo_path branch : string) : M (list entry) :=
  result ← _run ["git"; "log"; branch; "--format=%H %ai"; "--reverse"] repo_path;
  if bool_decide (returncode result ≠ 0)
  then raise (RuntimeError ("git log failed: " +:+ stderr result))
  else lift (monthly_commits (stdout result)).

(** [if subpath:] *)
Definition given (subpath : option string) : list string :=
  match subpath with
  | Some (String _ _ as p) => ["--"; p]
  | _ => []
  end.

(** [_cloc_from_archive(repo_path, commit_hash, subpath)] *)
Definition _cloc_from_archive (repo_path commit_hash : string)
    (subpath : option string) : M (Z * gmap string Z) :=
  tmp_path ← NamedTemporaryFile ".tar";
  try_finally
    (let git_cmd := ["git"; "archive"; commit_hash] ++ given subpath in
     proc ← subprocess_run_to tmp_path git_cmd (Some repo_path) 120;
     if bool_decide (returncode proc ≠ 0) then mret (0, ∅)
     else
       cloc_result ← subprocess_run ["cloc"; tmp_path; "--csv"; "--quiet"] None 300;
       if bool_decide (returncode cloc_result ≠ 0) then mret (0, ∅)
       else lift (parse_cloc (stdout cloc_result)))
    (present ← path_exists tmp_path;
     if present : bool then unlink tmp_path else mret tt).

(** [_has_subpath(repo_path, commit_hash, subpath)] *)
Definition _has_subpath (repo_path commit_hash subpath : string) : M bool :=
  result ← _run ["git"; "ls-tree"; "-d"; commit_hash; "--"; subpath] repo_path;
  mret (bool_decide (returncode result = 0)
        && negb (String.eqb (PyStr.strip (stdout result)) "")).

End Pipeline.

(** ** Snapshots *)

Record LOCSnapshot : Type := {
  month : string;
  commit_hash : string;
  commit_date : datetime;
  repo_total : Z;
  repo_by_lang : gmap string Z;
  subdir_totals : gmap string Z;
  subdir_by_lang : gmap string (gmap string Z)
}.

(** The least magnitude that is too large for a [float]: halfway between
    the largest float and [2 ** 1024]. *)
Definition float_overflow : Z := 2 ^ 1024 - 2 ^ 970.

(** [a / b] on integers: [ZeroDivisionError] for a zero divisor,
    [OverflowError] when the quotient is too large for a float. The float
    it gives otherwise, the one nearest to the quotient, is taken as the
    quotient itself. *)
Definition truediv (a b : Z) : outcome Qcanon.Qc :=
  if bool_decide (b = 0) then Raise ZeroDivisionError
  else if bool_decide (float_overflow * Z.abs b ≤ Z.abs a) then Raise OverflowError
  else Ok (Qcanon.Qcdiv (Qc_of_Z a) (Qc_of_Z b)).

(** [LOCSnapshot.subdir_pct(self, subdir)] *)
Definition subdir_pct (self : LOCSnapshot) (subdir : string) : outcome Qcanon.Qc :=
  if bool_decide (repo_total self = 0) then Ok (Qc_of_Z 0)
  else
    q ← truediv (default 0 (subdir_totals self !! subdir)) (repo_total self);
    mret (Qcanon.Qcmult q (Qc_of_Z 100)).

(** The normal form of a tracked path: [sd.strip("/") + "/"]. *)
Definition normalize (sd : string) : string := PyStr.strip_chars "/" sd +:+ "/".

Section Collect.

Variable W : World.

(** The body of the loop over the tracked subdirectories. *)
Definition track_subdir (repo_path commit_hash : string)
    (acc : gmap string Z * gmap string (gmap string Z)) (sd : string)
  : M (gmap string Z * gmap string (gmap string Z)) :=
  present ← _has_subpath W repo_path commit_hash sd;
  if present : bool then
    '(total, by_lang) ← _cloc_from_archive W repo_path commit_hash (Some sd);
    mret (<[sd := total]> acc.1, <[sd := by_lang]> acc.2)
  else mret (<[sd := 0]> acc.1, <[sd := ∅]> acc.2).

(** The body of the loop over the months. *)
Definition snapshot_of (repo_path : string) (subdirs : list string)
    (on_progress : option (nat → nat → string → M unit)) (n : nat)
    (i : nat) (e : entry) : M LOCSnapshot :=
  _ ← match on_progress with
      | Some notify => notify (i + 1)%nat n (entry_month e)
      | None => mret tt
      end;
  '(total, by_lang) ← _cloc_from_archive W repo_path (entry_hash e) None;
  '(totals, by_langs) ←
    forM (track_subdir repo_path (entry_hash e)) (∅, ∅) subdirs;
  mret {| month := entry_month e; commit_hash := entry_hash e;
          commit_date := entry_date e; repo_total := total;
          repo_by_lang := by_lang; subdir_totals := totals;
          subdir_by_lang := by_langs |}.

(** [collect_snapshots(repo_path, branch, subdirs, on_progress)] *)
Definition collect_snapshots (repo_path branch : string)
    (subdirs : option (list string))
    (on_progress : option (nat → nat → string → M unit))
  : M (list LOCSnapshot) :=
  commits ← get_monthly_commits W repo_path branch;
  let subdirs := normalize <$> default [] subdirs in
  for_enumerate (snapshot_of repo_path subdirs on_progress (length commits)) 0 commits.

End Collect.

(** ** What the processes of one extraction answer *)

Section Answers.

Variable W : World.
Variables (repo_path commit_hash : string) (subpath : option string).
Variable os : OS.

(** The temporary file of an extraction started in [os]. *)
Definition tmp_of : string := mkstemp W (files os) ".tar".

Definition archive_cmd : list string :=
  ["git"; "archive"; commit_hash] ++ given subpath.
Definition cloc_cmd : list string := ["cloc"; tmp_of; "--csv"; "--quiet"].

(** What [git archive] does, the temporary file being there and empty. *)
Definition archive_answer : outcome CompletedProcess :=
  spawn W (<[tmp_of := ""]> (files os)) archive_cmd (Some repo_path) 120.

(** What [cloc] does on the temporary file that holds [tar]. *)
Definition cloc_answer (tar : string) : outcome CompletedProcess :=
  spawn W (<[tmp_of := tar]> (files os)) cloc_cmd None 300.

End Answers.

(** The state after the events [evs], the files being as in [os]. *)
Definition seen (os : OS) (evs : list event) : OS :=
  {| files := files os; trace := trace os ++ evs |}.

Definition log_cmd (branch : string) : list string :=
  ["git"; "log"; branch; "--format=%H %ai"; "--reverse"].
Definition ls_tree_cmd (commit_hash sd : string) : list string :=
  ["git"; "ls-tree"; "-d"; commit_hash; "--"; sd].

(** What [git log] and [git ls-tree] do in [os]. *)
Definition log_answer (W : World) (repo_path branch : string) (os : OS)
  : outcome CompletedProcess :=
  spawn W (files os) (log_cmd branch) (Some repo_path) 300.
Definition ls_tree_answer (W : World) (repo_path commit_hash sd : string) (os : OS)
  : outcome CompletedProcess :=
  spawn W (files os) (ls_tree_cmd commit_hash sd) (Some repo_path) 300.

(** The process ended with a code other than zero. *)
Definition exits_nonzero (a : outcome CompletedProcess) : Prop :=
  ∃ p, a = Ok p ∧ returncode p ≠ 0.
(** The process ended with code zero, as [p]. *)
Definition exits_zero (a : outcome CompletedProcess) (p : CompletedProcess) : Prop :=
  a = Ok p ∧ returncode p = 0.

(** ** A stub environment

    Three commits, two in January and one in February 2024; the directory
    [apps/web] is there from February on. [history], [archive] and [cloc]
    say what [git log], [git archive] and [cloc] answer. *)

Definition LF : string := String "010"%char "".
Definition TAB : string := String "009"%char "".

Definition completed (code : Z) (out : string) : outcome CompletedProcess :=
  Ok {| returncode := code; stdout := out; stderr := "" |}.

Definition history : string :=
  "a1 2024-01-05 10:00:00 +0100" +:+ LF +:+
  "a2 2024-01-20 09:30:00 +0100" +:+ LF +:+
  "a3 2024-02-03 18:45:10 -0800" +:+ LF.

Definition stub_spawn (log : outcome CompletedProcess)
    (archive : list string → outcome CompletedProcess)
    (cloc : string → outcome CompletedProcess)
    (fs : gmap string string) (cmd : list string) (cwd : option string)
    (timeout : Z) : outcome CompletedProcess :=
  match cmd with
  | prog :: sub :: args =>
      if bool_decide (prog = "cloc") then cloc (default "" (fs !! sub))
      else if bool_decide (sub = "log") then log
      else if bool_decide (sub = "archive") then archive args
      else if bool_decide (sub = "ls-tree") then
        match args with
        | [_; commit; _; sd] =>
            completed 0 (if bool_decide (commit = "a3")
                         then "040000 tree 9d1c" +:+ TAB +:+ sd else "")
        | _ => completed 128 ""
        end
      else completed 1 ""
  | _ => Raise (OSError "no command")
  end.

Definition stub (log : outcome CompletedProcess)
    (archive : list string → outcome CompletedProcess)
    (cloc : string → outcome CompletedProcess) : World :=
  {| spawn := stub_spawn log archive cloc;
     mkstemp := λ _ suffix, "/tmp/tmp0" +:+ suffix |}.

(** [git archive] printing a tar that names its arguments. *)
Definition tar_of (args : list string) : outcome CompletedProcess :=
  completed 0 (String.concat " " args).

Definition csv_header : string := "files,language,blank,comment,code".

(** [cloc] counting 100 lines of Python and 20 of C in every tree but
    that of [apps/web], which has 40 lines of Python. *)
Definition web_csv : string :=
  LF +:+ csv_header +:+ LF +:+ "2,Python,5,1,40" +:+ LF +:+ "2,SUM,5,1,40" +:+ LF.
Definition repo_csv : string :=
  LF +:+ csv_header +:+ LF +:+ "3,Python,9,4,100" +:+ LF +:+ "1,C,2,0,20" +:+ LF
  +:+ "4,SUM,11,4,120" +:+ LF.
Definition cloc_of (tar : string) : outcome CompletedProcess :=
  if bool_decide (tar = "a3 -- apps/web/") then completed 0 web_csv
  else completed 0 repo_csv.

Definition demo : World := stub (completed 0 history) tar_of cloc_of.

(** The same repository when [git log] fails, when it prints nothing,
    when [git archive] runs out of time, and when [cloc] fails. *)
Definition unknown_branch : World :=
  stub (Ok {| returncode := 128; stdout := "";
              stderr := "fatal: bad revision 'main'" |}) tar_of cloc_of.
Definition no_commits : World := stub (completed 0 "") tar_of cloc_of.

(** What git 2.39 answers to [git log main ...] when the branch [main] has
    no commit yet. *)
Definition unborn_branch_message : string :=
  "fatal: ambiguous argument 'main': unknown revision or path not in the working tree."
  +:+ LF +:+ "Use '--' to separate paths from revisions, like this:"
  +:+ LF +:+ "'git <command> [<revision>...] -- [<file>...]'" +:+ LF.
Definition empty_branch : World :=
  stub (Ok {| returncode := 128; stdout := ""; stderr := unborn_branch_message |})
    tar_of cloc_of.
Definition slow_archive : World :=
  stub (completed 0 history) (λ args, Raise (TimeoutExpired ("git" :: "archive" :: args)))
    cloc_of.
Definition failing_cloc : World :=
  stub (completed 0 history) tar_of (λ _, completed 1 "").
Definition failing_archive : World :=
  stub (completed 0 history) (λ _, completed 128 "") cloc_of.
(** [cloc] printing a row whose code count is no number. *)
Definition garbled_cloc : World :=
  stub (completed 0 history) tar_of (λ _, completed 0 "1,Python,0,0,n/a").

(** [git archive] running out of time on a subdirectory only. *)
Definition slow_subdir_archive : World :=
  stub (completed 0 history)
    (λ args, if bool_decide ("--" ∈ args)
             then Raise (TimeoutExpired ("git" :: "archive" :: args))
             else tar_of args)
    cloc_of.

(** The process ended with code zero. *)
Definition ended_well (a : outcome CompletedProcess) : bool :=
  match a with
  | Ok p => bool_decide (returncode p = 0)
  | Raise _ => false
  end.

(** ** Vocabulary for the rows of the counting tool *)



(** The rows that are counted, in order: the lines that are not skipped. *)
Definition counted (rows : list (option (string * Z))) : list (string * Z) :=
  omap id rows.

(** The code counts of the [SUM] rows and the rows of the languages. *)
Definition sums (data : list (string * Z)) : list Z :=
  (filter (λ r, r.1 = "SUM") data).*2.
Definition langs (data : list (string * Z)) : list (string * Z) :=
  filter (λ r, r.1 ≠ "SUM") data.

Definition set_lang (by_lang : gmap string Z) (r : string * Z) : gmap string Z :=
  <[r.1 := r.2]> by_lang.

(** A line that the parsing loop gets through: not empty, and either
    skipped or with an integer in its fifth field. *)
Definition countable_line (line : string) : Prop :=
  match line with
  | "" => False
  | String c _ =>
      PyStr.startswith "files" line = true ∨ PyStr.isdigit c = false
      ∨ (length (PyStr.split_on ","%char line) < 5)%nat
      ∨ is_Some (PyStr.split_on ","%char line !! 4%nat ≫= PyStr.int)
  end.


(** An empty file system, nothing done yet. *)
Definition boot : OS := {| files := ∅; trace := [] |}.

(** The progress callback of the command line: one notification a month. *)
Definition report (i n : nat) (month : string) : M unit := log (Progress i n month).

(** The run of the stub repository with [apps/web] tracked. *)
Definition demo_run : outcome (list LOCSnapshot) * OS :=
  collect_snapshots demo "/repo" "main" (Some ["apps/web"]) (Some report) boot.
Definition demo_snapshots : list LOCSnapshot :=
  match demo_run.1 with
  | Ok snapshots => snapshots
  | Raise _ => []
  end.

(** ** Vocabulary for the commit selector and the subdirectory loop *)

(** [monthly[month] = e], the update of the selector's loop. *)
Definition put (monthly : gmap string entry) (e : entry) : gmap string entry :=
  <[entry_month e := e]> monthly.

(** [line] is a commit line that the selector reads as [e]. *)
Definition reads (line : string) (e : entry) : Prop := read_commit line = Ok e.

(** [line] is a commit line of [git log --format="%H %ai"] and [e] is its
    entry: the first field is the hash, the first seven characters of the
    second field are the month, and the second and third fields, joined by
    [T], are the date and the time of the commit. *)
Definition commit_line (line : string) (e : entry) : Prop :=
  ∃ h d t more date,
    PyStr.split line = h :: d :: t :: more
    ∧ Iso.fromisoformat (d +:+ "T" +:+ t) = Some date
    ∧ e = {| entry_hash := h; entry_date := date; entry_month := PyStr.upto 7 d |}.

(** The entry kept for month [k] is the last one of that month. *)
Definition last_of (k : string) (es : list entry) (e : entry) : Prop :=
  ∃ es1 es2, es = es1 ++ e :: es2 ∧ entry_month e = k
             ∧ Forall (λ e', entry_month e' ≠ k) es2.

(** [e] comes from the last line of its month in [lines]. *)
Definition last_commit_of_month (lines : list string) (e : entry) : Prop :=
  ∃ before line after,
    lines = before ++ line :: after ∧ reads line e
    ∧ Forall (λ l, ∀ e', reads l e' → entry_month e' ≠ entry_month e) after.

(** [e] is the entry of a commit line of [lines], and no commit line after
    it is of the same month. *)
Definition last_line_of_month (lines : list string) (e : entry) : Prop :=
  ∃ before line after,
    lines = before ++ line :: after ∧ commit_line line e
    ∧ Forall (λ l, ∀ e', commit_line l e' → entry_month e' ≠ entry_month e) after.

(** What the loop body records for [sd] after an extraction that gave [r]. *)
Definition recorded (acc : gmap string Z * gmap string (gmap string Z))
    (sd : string) (r : outcome (Z * gmap string Z))
  : outcome (gmap string Z * gmap string (gmap string Z)) :=
  match r with
  | Ok (total, by_lang) => Ok (<[sd := total]> acc.1, <[sd := by_lang]> acc.2)
  | Raise e => Raise e
  end.

(** ** The callers: the command line and the report *)

(** [_subdir_label(sd)] of [visualizer.py]. *)
Definition _subdir_label (sd : string) : string := PyStr.strip_chars "/" sd.

(** The tracked paths that [main] of [cli.py] reads from [--subdirs]:
    [[s.strip() for s in arg.split(",") if s.strip()] if arg else []]. *)
Definition parse_subdirs (arg : string) : list string :=
  if String.eqb arg "" then []
  else omap (λ s, let t := PyStr.strip s in
                  if String.eqb t "" then None else Some t)
         (PyStr.split_on ","%char arg).

Definition is_slash (c : ascii) : bool := PyStr.mem c "/".

(** [c in s] for a character. *)
Definition has_char (c : ascii) (s : string) : Prop := PyStr.mem c s = true.

(** The commands that only read the repository: [git log], [git archive],
    [git ls-tree], and [cloc]. *)
Definition read_only_cmd (cmd : list string) : bool :=
  match cmd with
  | prog :: rest =>
      if String.eqb prog "cloc" then true
      else if String.eqb prog "git" then
        match rest with
        | sub :: _ =>
            String.eqb sub "log" || String.eqb sub "archive"
            || String.eqb sub "ls-tree"
        | [] => false
        end
      else false
  | [] => false
  end.

(** An event that leaves the repository alone. *)
Definition harmless (ev : event) : Prop :=
  match ev with
  | Spawn cmd _ => read_only_cmd cmd = true
  | Progress _ _ _ => True
  end.

(** From [os] to [os'] only events that satisfy [Q] were added. *)
Definition only_added (Q : event → Prop) (os os' : OS) : Prop :=
  ∃ evs, trace os' = trace os ++ evs ∧ Forall Q evs.

(** The snapshot [s] is that of the month entry [e]. *)
Definition snapshot_for (e : entry) (s : LOCSnapshot) : Prop :=
  month s = entry_month e ∧ commit_hash s = entry_hash e
  ∧ commit_date s = entry_date e.

(** The computation [m] keeps the relation [R] between the state it starts
    in and the state it ends in, when it starts in a state that satisfies
    [I]. *)
Definition respects (R : OS → OS → Prop) (I : OS → Prop) {A} (m : M A) : Prop :=
  ∀ os, I os → R os (m os).2.

(** The progress notifications among the events, as the callback of the
    command line gets them: index, number of months, month. *)
Definition notifications (tr : list event) : list (nat * nat * string) :=
  omap (λ ev, match ev with
              | Progress i n m => Some (i, n, m)
              | Spawn _ _ => None
              end) tr.

(** No notification was sent between [os] and [os']. *)
Definition silent (os os' : OS) : Prop :=
  notifications (trace os') = notifications (trace os).

(** A history with a truncated line, and one with a date that is none. *)
Definition truncated_history : World :=
  stub (completed 0 ("a1 2024-01-05 10:00:00 +0100" +:+ LF +:+ "a2 2024-01-20" +:+ LF))
    tar_of cloc_of.
Definition misdated_history : World :=
  stub (completed 0 ("a1 2024-01-05 10:00:00 +0100" +:+ LF
                     +:+ "a2 Jan 5 2024" +:+ LF))
    tar_of cloc_of.

(** ** Months and dates *)

(** The decimal digit of [n], for [0 <= n <= 9]. *)
Definition digit_char (n : Z) : ascii := ascii_of_N (48 + Z.to_N n).

Definition two_digits (n : Z) : string :=
  String (digit_char (n / 10)) (String (digit_char (n mod 10)) "").

(** The year on four digits, a hyphen, and the month on two digits: what
    [d.strftime("%Y-%m")] gives for a year of four digits. *)
Definition year_month (d : datetime) : string :=
  two_digits (dt_year d / 100) +:+ two_digits (dt_year d mod 100)
  +:+ "-" +:+ two_digits (dt_month d).

(** ** The table of [main]: [loc-data.csv] *)

Module PyText.

(** [sep.join(parts)] *)
Fixpoint join (sep : string) (parts : list string) : string :=
  match parts with
  | [] => ""
  | [p] => p
  | p :: ps => p +:+ sep +:+ join sep ps
  end.

(** [s.replace(old, new)] for [old] and [new] of one character. *)
Fixpoint replace (old new : ascii) (s : string) : string :=
  match s with
  | "" => ""
  | String c s' => String (if Ascii.eqb c old then new else c) (replace old new s')
  end.

(** [str(n)] on an [int]. *)
Definition str (n : Z) : string := pretty n.

End PyText.

(** [norm_subdirs] of [main]: [[sd.strip("/") + "/" for sd in subdirs]]. *)
Definition norm_subdirs (subdirs : list string) : list string :=
  (λ sd, PyStr.strip_chars "/" sd +:+ "/") <$> subdirs.

(** The fields of the header and of the row of one snapshot. *)
Definition header_parts (norm_subdirs : list string) : list string :=
  ["month"; "repo_total"]
  ++ ((λ sd, PyText.replace "/" "_" (PyStr.strip_chars "/" sd)) <$> norm_subdirs).

Definition row (norm_subdirs : list string) (s : LOCSnapshot) : list string :=
  [month s; PyText.str (repo_total s)]
  ++ ((λ sd, PyText.str (default 0 (subdir_totals s !! sd))) <$> norm_subdirs).

(** What [main] writes to [loc-data.csv], one element for each call of
    [f.write]. *)
Definition csv_writes (snapshots : list LOCSnapshot) (norm_subdirs : list string)
  : list string :=
  (PyText.join "," (header_parts norm_subdirs) +:+ LF)
  :: ((λ s, PyText.join "," (row norm_subdirs s) +:+ LF) <$> snapshots).

(** Splitting [line] at the commas, its final line feed apart, gives the
    [n] fields it was written from. *)
Definition csv_line (n : nat) (line : string) : Prop :=
  ∃ fields, line = PyText.join "," fields +:+ LF
            ∧ PyStr.split_on "," (PyText.join "," fields) = fields
            ∧ length fields = n.

(** ** The charts of [visualizer.py] *)

(** The values a chart is made of: strings, integers, lists, and
    dictionaries with their keys in the order in which they are written. *)
#[local] Unset Elimination Schemes.
Inductive value : Type :=
  | VStr (s : string)
  | VInt (n : Z)
  | VFloat (q : Qcanon.Qc)
  | VList (l : list value)
  | VDict (d : list (string * value)).
#[local] Set Elimination Schemes.

Definition COLORS : list string :=
  ["#10B981"; "#F59E0B"; "#EF4444"; "#8B5CF6"; "#EC4899";
   "#06B6D4"; "#84CC16"; "#F97316"; "#14B8A6"; "#A855F7"].
Definition REPO_COLOR : string := "#4F46E5".

(** [enumerate(l)] *)
Definition enumerate {A} (l : list A) : list (nat * A) := imap pair l.

(** [[f(snapshots[i]) - f(snapshots[i - 1]) for i in range(1, len(snapshots))]] *)
Definition deltas (f : LOCSnapshot → Z) (snapshots : list LOCSnapshot)
  : outcome (list Z) :=
  for_list (λ i, cur ← getitem snapshots i;
                 prev ← getitem snapshots (i - 1);
                 mret (f cur - f prev))
    (seq 1 (length snapshots - 1)).

Definition _build_monthly_delta_chart (snapshots : list LOCSnapshot)
    (subdirs : list string) : outcome value :=
  if bool_decide (length snapshots < 2)%nat
  then mret (VDict [("data", VList []);
                    ("layout", VDict [("title", VStr "Monthly LOC Growth")])])
  else
    let months := month <$> drop 1 snapshots in
    repo_delta ← deltas repo_total snapshots;
    let traces :=
      [VDict [("x", VList (VStr <$> months));
              ("y", VList (VInt <$> repo_delta));
              ("name", VStr "Total repo");
              ("type", VStr "bar");
              ("marker", VDict [("color", VStr REPO_COLOR)])]] in
    traces ← for_each (λ traces '(i, sd),
        color ← getitem COLORS (i mod length COLORS);
        delta ← deltas (λ s, default 0 (subdir_totals s !! sd)) snapshots;
        mret (traces ++
              [VDict [("x", VList (VStr <$> months));
                      ("y", VList (VInt <$> delta));
                      ("name", VStr (_subdir_label sd));
                      ("type", VStr "bar");
                      ("marker", VDict [("color", VStr color)])]]))
      traces (enumerate subdirs);
    mret (VDict
      [("data", VList traces);
       ("layout", VDict
          [("title", VStr "Monthly LOC Growth (Delta)");
           ("xaxis", VDict [("title", VStr "Month")]);
           ("yaxis", VDict [("title", VStr "Lines Added")]);
           ("template", VStr "plotly_white");
           ("barmode", VStr "group");
           ("hovermode", VStr "x unified");
           ("legend", VDict [("orientation", VStr "h");
                             ("y", VFloat (Qcanon.Qcopp
                                     (Qcanon.Qcdiv (Qc_of_Z 2) (Qc_of_Z 10))))])])]).

(** The value of the key [k] in a dictionary. *)
Definition field (k : string) (v : value) : option value :=
  match v with
  | VDict d => (λ r, r.2.2) <$> list_find (λ kv, kv.1 = k) d
  | _ => None
  end.

Definition sum_of (l : list Z) : Z := foldr Z.add 0 l.

(** [trace] is a series of bars over [months] whose heights [ys] add up
    to [total]. *)
Definition bars (months : list string) (total : Z) (trace : value) : Prop :=
  ∃ ys, field "x" trace = Some (VList (VStr <$> months))
        ∧ field "y" trace = Some (VList (VInt <$> ys))
        ∧ length ys = length months
        ∧ sum_of ys = total.

(** * Properties *)

Arguments PyStr.split_on : simpl never.
Arguments PyStr.split : simpl never.
Arguments PyStr.splitlines : simpl never.
Arguments PyStr.strip : simpl never.
Arguments PyStr.startswith : simpl never.
Arguments PyStr.isdigit : simpl never.
Arguments PyStr.int : simpl never.
Arguments PyStr.upto : simpl never.
Arguments read_commit : simpl never.
Arguments read_row : simpl never.
Arguments monthly_step : simpl never.
Arguments cloc_step : simpl never.

(** ** Running computations *)

Lemma outcome_bind_Ok {A B} (k : A → outcome B) (m : outcome A) (b : B) :
  m ≫= k = Ok b ↔ ∃ a, m = Ok a ∧ k a = Ok b.
Proof.
  destruct m as [a|e]; simpl; split.
  - eauto.
  - by intros (a' & [= ->] & ?).
  - done.
  - by intros (a' & ? & _).
Qed.

Lemma for_each_app {A S} (body : S → A → outcome S) s l1 l2 :
  for_each body s (l1 ++ l2) = s' ← for_each body s l1; for_each body s' l2.
Proof.
  revert s. induction l1 as [|x l1 IH]; intros s; simpl; [done|].
  destruct (body s x) as [s'|e]; simpl; [apply IH|done].
Qed.

(** ** The commit selector *)

Lemma monthly_step_reads monthly line e :
  reads line e → monthly_step monthly line = Ok (put monthly e).
Proof. unfold reads, monthly_step. by intros ->. Qed.

Lemma monthly_step_inv monthly line monthly' :
  monthly_step monthly line = Ok monthly' →
  ∃ e, reads line e ∧ monthly' = put monthly e.
Proof.
  unfold monthly_step. intros (e & He & [= <-])%outcome_bind_Ok. by exists e.
Qed.

Lemma monthly_fold lines es monthly :
  Forall2 reads lines es →
  for_each monthly_step monthly lines = Ok (foldl put monthly es).
Proof.
  intros H. revert monthly.
  induction H as [|l e lines es Hl _ IH]; intros monthly; simpl; [done|].
  rewrite (monthly_step_reads _ _ _ Hl). simpl. apply IH.
Qed.

Lemma monthly_fold_inv lines monthly monthly' :
  for_each monthly_step monthly lines = Ok monthly' →
  ∃ es, Forall2 reads lines es ∧ monthly' = foldl put monthly es.
Proof.
  revert monthly. induction lines as [|l lines IH]; intros monthly; simpl.
  - intros [= <-]. exists []. by split; [constructor|].
  - intros (m1 & H1 & H2)%outcome_bind_Ok.
    apply monthly_step_inv in H1 as (e & He & ->).
    destruct (IH _ H2) as (es & Hes & ->).
    exists (e :: es). by split; [constructor|].
Qed.

Lemma last_of_snoc k es e e' :
  entry_month e' ≠ k → last_of k es e → last_of k (es ++ [e']) e.
Proof.
  intros Hne (es1 & es2 & -> & Hk & Hes2).
  exists es1, (es2 ++ [e']). split; [by rewrite <-app_assoc|].
  split; [done|]. apply Forall_app. split; [done|]. by constructor.
Qed.

Lemma foldl_put_lookup es monthly k :
  match foldl put monthly es !! k with
  | Some e =>
      last_of k es e
      ∨ (monthly !! k = Some e ∧ Forall (λ e', entry_month e' ≠ k) es)
  | None => monthly !! k = None ∧ Forall (λ e', entry_month e' ≠ k) es
  end.
Proof.
  induction es as [|e0 es IH] using rev_ind; simpl.
  - destruct (monthly !! k); [right|]; by split.
  - rewrite foldl_app. simpl. unfold put at 1.
    destruct (decide (entry_month e0 = k)) as [<-|Hne].
    + rewrite lookup_insert_eq. left. exists es, []. by repeat split.
    + rewrite lookup_insert_ne by done.
      destruct (foldl put monthly es !! k) as [e|].
      * destruct IH as [IH|[IH1 IH2]]; [left; by apply last_of_snoc|right].
        split; [done|]. apply Forall_app. split; [done|]. by constructor.
      * destruct IH as [IH1 IH2]. split; [done|].
        apply Forall_app. split; [done|]. by constructor.
Qed.

Lemma monthly_lookup_last es k e :
  foldl put ∅ es !! k = Some e → last_of k es e.
Proof.
  intros H. pose proof (foldl_put_lookup es ∅ k) as Hl. rewrite H in Hl.
  destruct Hl as [Hl|[Hl _]]; [done|]. by rewrite lookup_empty in Hl.
Qed.

Lemma monthly_lookup_elem es e :
  e ∈ es → is_Some (foldl put ∅ es !! entry_month e).
Proof.
  intros He. pose proof (foldl_put_lookup es ∅ (entry_month e)) as Hl.
  destruct (foldl put ∅ es !! entry_month e) as [e'|]; [by eexists|].
  destruct Hl as [_ Hl]. by apply (proj1 (Forall_forall _ _) Hl e) in He.
Qed.

(** [sorted] gives a strictly ascending list when the keys are distinct. *)
Lemma StronglySorted_strict (l : list string) :
  NoDup l → StronglySorted String.le l → StronglySorted (strict String.le) l.
Proof.
  induction 2 as [|x l Hl IH Hx]; [constructor|].
  apply NoDup_cons in H as [Hnotin Hnd].
  constructor; [by apply IH|].
  apply Forall_forall. intros y Hy. split.
  - by apply (proj1 (Forall_forall _ _) Hx).
  - intros Hyx. apply Hnotin.
    assert (x = y) as ->; [|done].
    apply (anti_symm String.le); [|done].
    by apply (proj1 (Forall_forall _ _) Hx).
Qed.

Lemma sorted_keys_strict {V} (d : gmap string V) :
  StronglySorted (strict String.le) (sorted (keys d)).
Proof.
  apply StronglySorted_strict.
  - unfold sorted. rewrite merge_sort_Permutation. apply NoDup_fst_map_to_list.
  - apply (StronglySorted_merge_sort _).
Qed.

Lemma elem_of_sorted_keys {V} (d : gmap string V) k :
  k ∈ sorted (keys d) ↔ is_Some (d !! k).
Proof.
  unfold sorted, keys. rewrite merge_sort_Permutation, list_elem_of_fmap. split.
  - intros ([k' v] & -> & H%elem_of_map_to_list). by exists v.
  - intros [v Hv]. exists (k, v). split; [done|]. by apply elem_of_map_to_list.
Qed.

Lemma for_list_lookup {V} (d : gmap string V) ks :
  Forall (λ k, is_Some (d !! k)) ks →
  ∃ vs, for_list (λ k, or_raise (KeyError k) (d !! k)) ks = Ok vs
        ∧ Forall2 (λ k v, d !! k = Some v) ks vs.
Proof.
  induction 1 as [|k ks [v Hv] _ (vs & Hvs & IH)]; simpl.
  - exists []. by split; [|constructor].
  - exists (v :: vs). rewrite Hv, Hvs. simpl. by split; [|constructor].
Qed.

Lemma last_of_lines lines es e :
  Forall2 reads lines es → last_of (entry_month e) es e →
  last_commit_of_month lines e.
Proof.
  intros Hes (es1 & es2 & -> & _ & Hlast).
  apply Forall2_app_inv_r in Hes as (before & rest & Hb & Hrest & ->).
  apply Forall2_cons_inv_r in Hrest as (line & after & Hline & Hafter & ->).
  exists before, line, after. split; [done|]. split; [done|].
  clear Hb Hline. induction Hafter as [|l e1 after es2 Hl _ IH]; [constructor|].
  apply Forall_cons in Hlast as [Hne Hlast]. constructor; [|by apply IH].
  intros e' He'. unfold reads in *. congruence.
Qed.

Lemma monthly_commits_spec out :
  let lines := PyStr.splitlines (PyStr.strip out) in
  Forall (λ l, ∃ e, reads l e) lines →
  ∃ commits,
    monthly_commits out = Ok commits
    ∧ StronglySorted (strict String.le) (entry_month <$> commits)
    ∧ (∀ m, m ∈ entry_month <$> commits
            ↔ ∃ l e, l ∈ lines ∧ reads l e ∧ entry_month e = m)
    ∧ Forall (last_commit_of_month lines) commits.
Proof.
  intros lines Hwf.
  assert (∃ es, Forall2 reads lines es) as [es Hes].
  { clear -Hwf. induction Hwf as [|l ls [e He] _ [es IH]].
    - exists []. constructor.
    - exists (e :: es). by constructor. }
  set (monthly := foldl put ∅ es).
  destruct (for_list_lookup monthly (sorted (keys monthly))) as (commits & Hc & Hf).
  { apply Forall_forall. intros k. by rewrite elem_of_sorted_keys. }
  assert (Forall2 (λ k e, entry_month e = k ∧ last_of k es e)
            (sorted (keys monthly)) commits) as Hlast.
  { eapply Forall2_impl; [exact Hf|]. intros k e Hk. simpl in Hk.
    apply monthly_lookup_last in Hk as Hl. split; [|done].
    by destruct Hl as (_ & _ & _ & ? & _). }
  assert (entry_month <$> commits = sorted (keys monthly)) as Hmonths.
  { clear -Hlast. induction Hlast as [|k e ks cs [Hk _] _ IH]; [done|].
    rewrite fmap_cons. by f_equal. }
  exists commits. split; [|split; [|split]].
  - unfold monthly_commits. fold lines.
    rewrite (monthly_fold _ _ _ Hes). simpl. exact Hc.
  - rewrite Hmonths. apply sorted_keys_strict.
  - intros m. rewrite Hmonths, elem_of_sorted_keys. split.
    + intros [e He]. apply monthly_lookup_last in He as (es1 & es2 & -> & Hm & _).
      apply Forall2_app_inv_r in Hes as (l1 & l2 & _ & Hl2 & Hlines).
      apply Forall2_cons_inv_r in Hl2 as (l & l3 & Hl & _ & ->).
      exists l, e. split; [|done]. rewrite Hlines.
      apply elem_of_app. right. apply elem_of_cons. by left.
    + intros (l & e & Hl & He & <-).
      apply monthly_lookup_elem.
      apply list_elem_of_lookup in Hl as [i Hi].
      destruct (Forall2_lookup_l _ _ _ _ _ Hes Hi) as (e' & Hi' & He').
      unfold reads in *. assert (e' = e) as -> by congruence.
      by eapply list_elem_of_lookup_2.
  - clear -Hlast Hes. induction Hlast as [|k e ks cs [Hk Hl] _ IH]; constructor; [|done].
    subst k. by eapply last_of_lines.
Qed.

(** ** One extraction *)

Lemma cloc_from_archive_run W repo_path commit_hash subpath os :
  let tmp := tmp_of W os in
  let git := Spawn (archive_cmd commit_hash subpath) (Some repo_path) in
  let cloc := Spawn (cloc_cmd W os) None in
  let leave evs := {| files := delete tmp (files os); trace := trace os ++ evs |} in
  _cloc_from_archive W repo_path commit_hash subpath os =
    match archive_answer W repo_path commit_hash subpath os with
    | Raise e => (Raise e, leave [git])
    | Ok proc =>
        if bool_decide (returncode proc ≠ 0) then (Ok (0, ∅), leave [git])
        else match cloc_answer W os (stdout proc) with
             | Raise e => (Raise e, leave [git; cloc])
             | Ok cloc_result =>
                 if bool_decide (returncode cloc_result ≠ 0)
                 then (Ok (0, ∅), leave [git; cloc])
                 else (parse_cloc (stdout cloc_result), leave [git; cloc])
             end
    end.
Proof.
  intros tmp git cloc leave.
  unfold _cloc_from_archive, try_finally, NamedTemporaryFile, subprocess_run_to,
    subprocess_run, path_exists, unlink, get_files, set_files, log, lift.
  unfold mbind, M_bind, mret, M_ret. simpl.
  unfold archive_answer, cloc_answer, archive_cmd, cloc_cmd, leave, git, cloc, tmp.
  unfold archive_cmd, cloc_cmd, tmp_of. simpl.
  rewrite !insert_insert_eq.
  assert (∀ (c : string) (fs : gmap string string), bool_decide
            (is_Some (<[mkstemp W (files os) ".tar" := c]> fs
                        !! mkstemp W (files os) ".tar")) = true)
    as Hthere.
  { intros. apply bool_decide_eq_true. rewrite lookup_insert_eq. by eexists. }
  destruct (spawn W _ _ _ 120) as [proc|e]; simpl;
    repeat setoid_rewrite insert_insert_eq.
  - destruct (bool_decide (returncode proc ≠ 0)); simpl.
    + rewrite Hthere. simpl. by rewrite !delete_insert_eq.
    + destruct (spawn W _ _ _ 300) as [cloc_result|e]; simpl.
      * destruct (bool_decide (returncode cloc_result ≠ 0)); simpl.
        -- rewrite Hthere; simpl. by rewrite !delete_insert_eq, <-app_assoc.
        -- rewrite Hthere; simpl. by rewrite !delete_insert_eq, <-app_assoc.
      * rewrite Hthere. simpl. by rewrite !delete_insert_eq, <-app_assoc.
  - rewrite Hthere. simpl. by rewrite !delete_insert_eq.
Qed.

(** ** The commit selector on the repository *)

Lemma run_spawn W cmd cwd os :
  _run W cmd cwd os = (spawn W (files os) cmd (Some cwd) 300, seen os [Spawn cmd (Some cwd)]).
Proof. reflexivity. Qed.

Lemma get_monthly_commits_run W repo_path branch os :
  get_monthly_commits W repo_path branch os =
    (match log_answer W repo_path branch os with
     | Raise e => Raise e
     | Ok result =>
         if bool_decide (returncode result ≠ 0)
         then Raise (RuntimeError ("git log failed: " +:+ stderr result))
         else monthly_commits (stdout result)
     end, seen os [Spawn (log_cmd branch) (Some repo_path)]).
Proof.
  unfold get_monthly_commits, mbind, M_bind. rewrite run_spawn.
  unfold log_answer, log_cmd.
  destruct (spawn W _ _ _ _) as [result|e]; [|done].
  by destruct (bool_decide (returncode result ≠ 0)).
Qed.

(** ** Months and dates *)

Lemma digit_val_char c v :
  PyStr.digit_val c = Some v →
  digit_char v = c ∧ 0 ≤ v ≤ 9 ∧ PyStr.mem c "T," = false.
Proof.
  destruct c as [[] [] [] [] [] [] [] []]; vm_compute; intros [= <-];
    (split; [reflexivity|split; [split; discriminate|reflexivity]]).
Qed.

Lemma two_digits_spec a b :
  0 ≤ a ≤ 9 → 0 ≤ b ≤ 9 →
  two_digits (10 * a + b) = String (digit_char a) (String (digit_char b) "").
Proof.
  intros Ha Hb. unfold two_digits.
  replace ((10 * a + b) / 10) with a by (apply (Z.div_unique _ _ _ b); lia).
  replace ((10 * a + b) mod 10) with b by (apply (Z.mod_unique _ _ a); lia).
  done.
Qed.

Lemma digits2_spec s v r :
  Iso.digits2 s = Some (v, r) →
  ∃ a b, s = String a (String b r) ∧ two_digits v = String a (String b "")
         ∧ 0 ≤ v ≤ 99 ∧ PyStr.mem a "T," = false ∧ PyStr.mem b "T," = false.
Proof.
  destruct s as [|a [|b r']]; [done..|]. unfold Iso.digits2.
  destruct (PyStr.digit_val a) as [x|] eqn:Hx; [|done].
  destruct (PyStr.digit_val b) as [y|] eqn:Hy; [|done].
  intros [= <- <-].
  apply digit_val_char in Hx as (Hx & ? & ?), Hy as (Hy & ? & ?).
  exists a, b. rewrite two_digits_spec, Hx, Hy by done. repeat split; (done || lia).
Qed.

Lemma expect_spec c s r : Iso.expect c s = Some r → s = String c r.
Proof.
  destruct s as [|d s]; [done|]. simpl.
  destruct (Ascii.eqb_spec c d) as [->|]; [|done]. by intros [= ->].
Qed.

Local Ltac no_char :=
  match goal with
  | |- context [Ascii.eqb ?x ?y] =>
      destruct (Ascii.eqb_spec x y) as [Heq|_];
      [exfalso; first [discriminate Heq | subst; vm_compute in *; congruence]|]
  | |- false = false => reflexivity
  end.

(** A string that [fromisoformat] accepts starts with the year and the
    month of the date. *)
Lemma fromisoformat_year_month s d :
  Iso.fromisoformat s = Some d →
  ∃ r, s = year_month d +:+ r ∧ String.length (year_month d) = 7%nat
       ∧ PyStr.mem "T" (year_month d) = false ∧ PyStr.mem "," (year_month d) = false
       ∧ 1 ≤ dt_month d ≤ 12.
Proof.
  intros Hiso. unfold Iso.fromisoformat in Hiso.
  destruct (Iso.digits4 s) as [[y r0]|] eqn:H4; [|done]. simpl in Hiso.
  destruct (Iso.expect "-" r0) as [r1|] eqn:E1; [|done]. simpl in Hiso.
  destruct (Iso.digits2 r1) as [[m r2]|] eqn:Hm; [|done]. simpl in Hiso.
  destruct (Iso.expect "-" r2) as [r3|] eqn:E2; [|done]. simpl in Hiso.
  destruct (Iso.digits2 r3) as [[dd r4]|] eqn:Hd; [|done]. simpl in Hiso.
  destruct (Iso.check _) as [[]|] eqn:Hc; [|done]. simpl in Hiso.
  unfold Iso.digits4 in H4.
  destruct (Iso.digits2 s) as [[hi q0]|] eqn:Hhi; [|done]. simpl in H4.
  destruct (Iso.digits2 q0) as [[lo q1]|] eqn:Hlo; [|done]. simpl in H4.
  injection H4 as <- <-.
  apply digits2_spec in Hhi as (a & b & -> & Hab & ? & Ha & Hb).
  apply digits2_spec in Hlo as (c & e & -> & Hce & ? & Hc' & He).
  apply digits2_spec in Hm as (m1 & m2 & -> & Hmm & ? & Hm1 & Hm2).
  apply expect_spec in E1 as ->. apply expect_spec in E2 as ->.
  assert (1 ≤ m ≤ 12) as Hrange.
  { unfold Iso.check in Hc. case_match eqn:Hbool; [|done].
    repeat (apply andb_prop in Hbool as [Hbool ?]). lia. }
  assert (dt_year d = 100 * hi + lo ∧ dt_month d = m) as [Hy Hmo].
  { destruct r4 as [|sep r5]; [by injection Hiso as <-|].
    destruct (Iso.digits2 r5) as [[h r6]|]; [|done]. simpl in Hiso.
    destruct (Iso.expect ":" r6) as [r7|]; [|done]. simpl in Hiso.
    destruct (Iso.digits2 r7) as [[mi r8]|]; [|done]. simpl in Hiso.
    destruct (Iso.expect ":" r8) as [r9|]; [|done]. simpl in Hiso.
    destruct (Iso.digits2 r9) as [[sec r10]|]; [|done]. simpl in Hiso.
    destruct (Iso.offset r10) as [tz|]; [|done]. simpl in Hiso.
    destruct (Iso.check _) as [[]|]; [|done]. simpl in Hiso.
    by injection Hiso as <-. }
  assert (year_month d =
            String a (String b (String c (String e (String "-"
              (String m1 (String m2 ""))))))) as ->.
  { unfold year_month. rewrite Hy, Hmo.
    replace ((100 * hi + lo) / 100) with hi by (apply (Z.div_unique _ _ _ lo); lia).
    replace ((100 * hi + lo) mod 100) with lo by (apply (Z.mod_unique _ _ hi); lia).
    by rewrite Hab, Hce, Hmm. }
  exists (String "-" r3). split; [done|]. split; [done|].
  rewrite Hmo. split; [|split; [|done]].
  - cbn [PyStr.mem]. repeat no_char.
  - cbn [PyStr.mem]. repeat no_char.
Qed.

Lemma upto_prefix c a : ∀ p q r,
  PyStr.mem c a = false → p +:+ String c q = a +:+ r →
  PyStr.upto (String.length a) p = a.
Proof.
  unfold PyStr.upto. induction a as [|x a IH]; intros p q r Hc Heq.
  - by destruct p.
  - simpl in Hc. destruct (Ascii.eqb_spec c x) as [->|Hne]; [done|].
    destruct p as [|y p]; simpl in Heq.
    + by injection Heq as -> _.
    + injection Heq as -> Heq. simpl. f_equal. by eapply IH.
Qed.

(** The month of an entry is the year and the month of its date, and
    holds no comma. *)
Lemma read_commit_month line e :
  read_commit line = Ok e →
  entry_month e = year_month (entry_date e)
  ∧ PyStr.mem "," (entry_month e) = false.
Proof.
  unfold read_commit.
  destruct (getitem (PyStr.split line) 0) as [h|]; [|done]. simpl.
  destruct (getitem (PyStr.split line) 1) as [p1|]; [|done]. simpl.
  destruct (getitem (PyStr.split line) 2) as [p2|]; [|done]. simpl.
  destruct (Iso.fromisoformat _) as [d|] eqn:Hd; [|done]. simpl.
  intros [= <-]. simpl.
  apply fromisoformat_year_month in Hd as (r & Heq & Hlen & HT & Hcomma & _).
  assert (PyStr.upto 7 p1 = year_month d) as ->; [|done].
  rewrite <-Hlen. exact (upto_prefix "T" _ p1 p2 r HT Heq).
Qed.

Lemma reads_commit_line line e : reads line e ↔ commit_line line e.
Proof.
  unfold reads, commit_line, read_commit, getitem.
  destruct (PyStr.split line) as [|h [|d [|t rest]]]; simpl;
    [split; [done|by intros (? & ? & ? & ? & ? & ? & _)]..|].
  destruct (Iso.fromisoformat (d +:+ "T" +:+ t)) as [date|] eqn:Hdate; simpl.
  - split.
    + intros [= <-]. by exists h, d, t, rest, date.
    + intros (h' & d' & t' & more & date' & [= <- <- <- <-] & Hd & ->).
      rewrite Hdate in Hd. by injection Hd as <-.
  - split; [done|].
    intros (h' & d' & t' & more & date' & [= <- <- <- <-] & Hd & _). congruence.
Qed.

(** C1. On a history whose lines are all commit lines, [get_monthly_commits]
    returns entries strictly ascending by month, one for each month that
    occurs in the history and for no other. The entry of a month is made of
    the last commit line of that month in the order of the input: its hash
    is the first field of the line, its date is read from the second and
    third, and its month is the year and the month of that date, written
    [YYYY-MM]. *)
Theorem get_monthly_commits_last_of_each_month W repo_path branch os result :
  exits_zero (log_answer W repo_path branch os) result →
  let lines := PyStr.splitlines (PyStr.strip (stdout result)) in
  Forall (λ l, ∃ e, commit_line l e) lines →
  ∃ commits,
    get_monthly_commits W repo_path branch os
      = (Ok commits, seen os [Spawn (log_cmd branch) (Some repo_path)])
    ∧ StronglySorted (strict String.le) (entry_month <$> commits)
    ∧ (∀ m, m ∈ entry_month <$> commits
            ↔ ∃ l e, l ∈ lines ∧ commit_line l e ∧ entry_month e = m)
    ∧ Forall (last_line_of_month lines) commits
    ∧ Forall (λ e, entry_month e = year_month (entry_date e)) commits.
Proof.
  intros [Hrun Hcode] lines Hwf.
  destruct (monthly_commits_spec (stdout result))
    as (commits & Hc & Hsorted & Hmonths & Hlast).
  { eapply Forall_impl; [exact Hwf|]. intros l [e He]. exists e.
    by apply reads_commit_line. }
  fold lines in Hmonths, Hlast.
  exists commits. split.
  { rewrite get_monthly_commits_run, Hrun.
    by rewrite bool_decide_false, Hc by (by intros ?). }
  split; [done|]. split; [|split].
  - intros m. rewrite Hmonths.
    split; intros (l & e & Hl & He & Hm); exists l, e;
      (split; [done|]); (split; [by apply reads_commit_line|done]).
  - eapply Forall_impl; [exact Hlast|].
    intros e (before & line & after & Hlines & Hr & Hafter).
    exists before, line, after. split; [done|].
    split; [by apply reads_commit_line|].
    eapply Forall_impl; [exact Hafter|]. intros l Hl e' He'.
    apply Hl. by apply reads_commit_line.
  - eapply Forall_impl; [exact Hlast|].
    intros e (_ & line & _ & _ & Hr & _).
    exact (proj1 (read_commit_month line e Hr)).
Qed.

(** A line of a hash, a date of git's form and a time is a commit line. *)
Lemma history_commit_line h d t more line :
  PyStr.split line = h :: d :: t :: more →
  is_Some (Iso.fromisoformat (d +:+ "T" +:+ t)) →
  ∃ e, commit_line line e.
Proof.
  intros Hsplit [date Hdate]. eexists. by exists h, d, t, more, date.
Qed.

Lemma history_lines :
  PyStr.splitlines (PyStr.strip history)
  = ["a1 2024-01-05 10:00:00 +0100"; "a2 2024-01-20 09:30:00 +0100";
     "a3 2024-02-03 18:45:10 -0800"].
Proof. vm_compute. reflexivity. Qed.

Lemma get_monthly_commits_last_of_each_month_witness :
  ∃ commits,
    get_monthly_commits demo "/repo" "main" boot
      = (Ok commits, seen boot [Spawn (log_cmd "main") (Some "/repo")])
    ∧ StronglySorted (strict String.le) (entry_month <$> commits)
    ∧ (∀ m, m ∈ entry_month <$> commits
            ↔ ∃ l e, l ∈ PyStr.splitlines (PyStr.strip history)
                     ∧ commit_line l e ∧ entry_month e = m)
    ∧ Forall (last_line_of_month (PyStr.splitlines (PyStr.strip history))) commits
    ∧ Forall (λ e, entry_month e = year_month (entry_date e)) commits.
Proof.
  apply (get_monthly_commits_last_of_each_month demo "/repo" "main" boot
           {| returncode := 0; stdout := history; stderr := "" |}).
  - split; [vm_compute; reflexivity | reflexivity].
  - cbn [stdout]. rewrite history_lines.
    repeat (apply Forall_cons_2;
            [eapply history_commit_line;
             [vm_compute; reflexivity|vm_compute; eexists; reflexivity]|]).
    apply Forall_nil_2.
Defined.

Example selected_commits :
  (get_monthly_commits demo "/repo" "main" boot).1
  = Ok [ {| entry_hash := "a2";
            entry_date := {| dt_year := 2024; dt_month := 1; dt_day := 20;
                             dt_hour := 9; dt_minute := 30; dt_second := 0;
                             dt_tzinfo := None |};
            entry_month := "2024-01" |};
         {| entry_hash := "a3";
            entry_date := {| dt_year := 2024; dt_month := 2; dt_day := 3;
                             dt_hour := 18; dt_minute := 45; dt_second := 10;
                             dt_tzinfo := None |};
            entry_month := "2024-02" |} ].
Proof. vm_compute. reflexivity. Qed.

Lemma collect_snapshots_run W repo_path branch subdirs on_progress os :
  collect_snapshots W repo_path branch subdirs on_progress os =
    match get_monthly_commits W repo_path branch os with
    | (Ok commits, os1) =>
        for_enumerate
          (snapshot_of W repo_path (normalize <$> default [] subdirs) on_progress
             (length commits)) 0 commits os1
    | (Raise e, os1) => (Raise e, os1)
    end.
Proof. reflexivity. Qed.

Lemma splitlines_nil s : PyStr.splitlines s = [] → s = "".
Proof.
  unfold PyStr.splitlines.
  assert (∀ s cur, PyStr.splitlines_go cur false s = [] → cur = "" ∧ s = "") as H.
  { clear s. induction s as [|c s IH]; intros cur; simpl.
    - by destruct (String.eqb_spec cur "").
    - destruct (PyStr.islinebreak c); [done|]. by intros [? _]%IH. }
  intros Hs. by apply H in Hs as [_ ?].
Qed.

(** The selector returns no entry only when there is no line. *)
Lemma monthly_commits_nil out :
  monthly_commits out = Ok [] → PyStr.strip out = "".
Proof.
  intros Hc. apply splitlines_nil.
  destruct (PyStr.splitlines (PyStr.strip out)) as [|l ls] eqn:Hlines; [done|].
  exfalso. pose proof Hc as Hc'. unfold monthly_commits in Hc'.
  apply outcome_bind_Ok in Hc' as (monthly & Hfold & _).
  apply monthly_fold_inv in Hfold as (es & Hes & _).
  destruct (monthly_commits_spec out) as (commits & Hc2 & _ & Hmonths & _).
  { clear -Hes. induction Hes; constructor; eauto. }
  rewrite Hc in Hc2. injection Hc2 as <-.
  rewrite Hlines in Hes, Hmonths.
  apply Forall2_cons_inv_l in Hes as (e & es' & He & _ & _).
  assert (entry_month e ∈ entry_month <$> []) as Hin.
  { apply Hmonths. exists l, e. split; [apply list_elem_of_here|done]. }
  by apply elem_of_nil in Hin.
Qed.

(** C7, as the code has it. When [git log] exits with a code other than
    zero, [get_monthly_commits] raises and [collect_snapshots] raises the
    same error, with no snapshot and nothing run after [git log]. Both
    return the empty list when [git log] exits with zero and prints no
    commit, and [get_monthly_commits] returns it in no other case. *)
Theorem history_failure_is_fatal W repo_path branch subdirs on_progress os result :
  log_answer W repo_path branch os = Ok result →
  let os1 := seen os [Spawn (log_cmd branch) (Some repo_path)] in
  (returncode result ≠ 0 →
   let err := RuntimeError ("git log failed: " +:+ stderr result) in
   get_monthly_commits W repo_path branch os = (Raise err, os1)
   ∧ collect_snapshots W repo_path branch subdirs on_progress os = (Raise err, os1))
  ∧ (returncode result = 0 → PyStr.strip (stdout result) = "" →
     get_monthly_commits W repo_path branch os = (Ok [], os1)
     ∧ collect_snapshots W repo_path branch subdirs on_progress os = (Ok [], os1))
  ∧ ((get_monthly_commits W repo_path branch os).1 = Ok [] →
     returncode result = 0 ∧ PyStr.strip (stdout result) = "").
Proof.
  intros Hrun os1. split; [|split].
  - intros Hcode err.
    assert (get_monthly_commits W repo_path branch os = (Raise err, os1)) as Hget.
    { rewrite get_monthly_commits_run, Hrun. by rewrite bool_decide_true. }
    split; [done|]. by rewrite collect_snapshots_run, Hget.
  - intros Hcode Hout.
    assert (get_monthly_commits W repo_path branch os = (Ok [], os1)) as Hget.
    { rewrite get_monthly_commits_run, Hrun.
      rewrite bool_decide_false by (by intros ?).
      unfold monthly_commits. by rewrite Hout. }
    split; [done|]. by rewrite collect_snapshots_run, Hget.
  - rewrite get_monthly_commits_run, Hrun. simpl.
    destruct (bool_decide_reflect (returncode result ≠ 0)) as [|Hcode]; [done|].
    intros Hnil. split; [by apply dec_stable|]. by apply monthly_commits_nil.
Qed.

Lemma history_failure_is_fatal_witness :
  (let err := RuntimeError "git log failed: fatal: bad revision 'main'" in
   let os1 := seen boot [Spawn (log_cmd "main") (Some "/repo")] in
   get_monthly_commits unknown_branch "/repo" "main" boot = (Raise err, os1)
   ∧ collect_snapshots unknown_branch "/repo" "main" (Some ["apps/web"]) (Some report) boot
     = (Raise err, os1))
  ∧ (let os1 := seen boot [Spawn (log_cmd "main") (Some "/repo")] in
     get_monthly_commits no_commits "/repo" "main" boot = (Ok [], os1)
     ∧ collect_snapshots no_commits "/repo" "main" (Some ["apps/web"]) (Some report) boot
       = (Ok [], os1)).
Proof.
  split.
  - apply (proj1 (history_failure_is_fatal unknown_branch "/repo" "main"
                    (Some ["apps/web"]) (Some report) boot
                    {| returncode := 128; stdout := "";
                       stderr := "fatal: bad revision 'main'" |} eq_refl)).
    discriminate.
  - apply (proj1 (proj2 (history_failure_is_fatal no_commits "/repo" "main"
                           (Some ["apps/web"]) (Some report) boot
                           {| returncode := 0; stdout := ""; stderr := "" |} eq_refl)));
      reflexivity.
Defined.

(** C7 as stated fails: on a branch without commits [git log] exits with
    128, so that the run ends with the error and not with the empty list. *)
Lemma empty_branch_is_an_error :
  (get_monthly_commits empty_branch "/repo" "main" boot).1
  = Raise (RuntimeError ("git log failed: " +:+ unborn_branch_message))
  ∧ (collect_snapshots empty_branch "/repo" "main" None None boot).1
    = Raise (RuntimeError ("git log failed: " +:+ unborn_branch_message))
  ∧ (get_monthly_commits empty_branch "/repo" "main" boot).1 ≠ Ok [].
Proof. split; [|split]; vm_compute; done. Qed.

(** ** Failures of one extraction *)

Lemma cloc_from_archive_files W repo_path commit_hash subpath os :
  files (_cloc_from_archive W repo_path commit_hash subpath os).2
  = delete (tmp_of W os) (files os).
Proof.
  rewrite cloc_from_archive_run.
  destruct (archive_answer _ _ _ _ _) as [proc|e]; [|done].
  destruct (bool_decide (returncode proc ≠ 0)); [done|].
  destruct (cloc_answer _ _ _) as [cloc_result|e]; [|done].
  by destruct (bool_decide (returncode cloc_result ≠ 0)).
Qed.

(** When the name of the temporary file is new, an extraction leaves the
    file system as it found it. *)
Lemma cloc_from_archive_restores_files W repo_path commit_hash subpath os :
  files os !! tmp_of W os = None →
  files (_cloc_from_archive W repo_path commit_hash subpath os).2 = files os.
Proof. intros Hnew. rewrite cloc_from_archive_files. by apply delete_id. Qed.

(** C8. Whatever [git archive] and [cloc] do, and however the extraction
    ends (a result, the empty result after a failure, or an exception), the
    temporary file is gone when it ends and no other file has changed. *)
Theorem cloc_from_archive_removes_temp W repo_path commit_hash subpath os :
  let os' := (_cloc_from_archive W repo_path commit_hash subpath os).2 in
  files os' = delete (tmp_of W os) (files os)
  ∧ files os' !! tmp_of W os = None.
Proof.
  intros os'. unfold os'. rewrite cloc_from_archive_files.
  split; [done|]. apply lookup_delete_eq.
Qed.

(** The ways an extraction ends: a count, [(0, {})] after a failure of
    [git archive] or of [cloc], an exception of a process, an exception of
    the parsing loop. No file is left in any of them. *)
Example temp_removed_on_every_exit :
  let ends W :=
    let '(r, os') := _cloc_from_archive W "/repo" "a2" None boot in
    (match r with Ok (total, _) => Ok total | Raise e => Raise e end,
     map_to_list (files os')) in
  ends demo = (Ok 120, [])
  ∧ ends failing_archive = (Ok 0, [])
  ∧ ends failing_cloc = (Ok 0, [])
  ∧ ends slow_archive = (Raise (TimeoutExpired ["git"; "archive"; "a2"]), [])
  ∧ ends garbled_cloc = (Raise ValueError, []).
Proof. vm_compute. done. Qed.

(** C2, as the code has it. When [git archive] exits with a code other than
    zero, or [cloc] does after [git archive] succeeded, [_cloc_from_archive]
    returns [(0, {})] and does not raise; an exception of either process, a
    timeout among them, reaches the caller. *)
Theorem cloc_from_archive_on_failure W repo_path commit_hash subpath os :
  let archive := archive_answer W repo_path commit_hash subpath os in
  let run := (_cloc_from_archive W repo_path commit_hash subpath os).1 in
  (exits_nonzero archive
   ∨ (∃ p, exits_zero archive p ∧ exits_nonzero (cloc_answer W os (stdout p))) →
   run = Ok (0, ∅))
  ∧ (∀ e, archive = Raise e
          ∨ (∃ p, exits_zero archive p ∧ cloc_answer W os (stdout p) = Raise e) →
          run = Raise e).
Proof.
  intros archive run. unfold run. rewrite cloc_from_archive_run. fold archive.
  split.
  - intros [(p & -> & Hp)|(p & [-> Hp] & c & Hc & Hcode)].
    + by rewrite bool_decide_true.
    + rewrite bool_decide_false, Hc by (by intros ?). by rewrite bool_decide_true.
  - intros e [->|(p & [-> Hp] & Hc)]; [done|].
    by rewrite bool_decide_false, Hc by (by intros ?).
Qed.

Lemma cloc_from_archive_on_failure_witness :
  (_cloc_from_archive failing_archive "/repo" "a2" None boot).1 = Ok (0, ∅)
  ∧ (_cloc_from_archive failing_cloc "/repo" "a2" None boot).1 = Ok (0, ∅)
  ∧ (_cloc_from_archive slow_archive "/repo" "a2" None boot).1
    = Raise (TimeoutExpired ["git"; "archive"; "a2"]).
Proof.
  split; [|split].
  - apply (proj1 (cloc_from_archive_on_failure failing_archive "/repo" "a2" None boot)).
    left. eexists. split; [vm_compute; reflexivity|]. discriminate.
  - apply (proj1 (cloc_from_archive_on_failure failing_cloc "/repo" "a2" None boot)).
    right. exists {| returncode := 0; stdout := "a2"; stderr := "" |}.
    split; [split; [vm_compute; reflexivity|reflexivity]|].
    eexists. split; [vm_compute; reflexivity|]. discriminate.
  - apply (proj2 (cloc_from_archive_on_failure slow_archive "/repo" "a2" None boot)).
    left. vm_compute. reflexivity.
Defined.

(** C2 as stated fails: when [git archive] runs out of time the extraction
    raises [TimeoutExpired] and does not return [(0, {})]. *)
Lemma cloc_from_archive_timeout_raises :
  archive_answer slow_archive "/repo" "a2" None boot
    = Raise (TimeoutExpired ["git"; "archive"; "a2"])
  ∧ (_cloc_from_archive slow_archive "/repo" "a2" None boot).1
    = Raise (TimeoutExpired ["git"; "archive"; "a2"])
  ∧ (_cloc_from_archive slow_archive "/repo" "a2" None boot).1 ≠ Ok (0, ∅).
Proof.
  assert ((_cloc_from_archive slow_archive "/repo" "a2" None boot).1
          = Raise (TimeoutExpired ["git"; "archive"; "a2"])) as H
    by (vm_compute; reflexivity).
  split; [vm_compute; reflexivity|]. split; [exact H|]. by rewrite H.
Qed.

(** ** Tracked subdirectories *)

Lemma has_subpath_run W repo_path commit_hash sd os :
  _has_subpath W repo_path commit_hash sd os =
    (match ls_tree_answer W repo_path commit_hash sd os with
     | Ok result =>
         Ok (bool_decide (returncode result = 0)
             && negb (String.eqb (PyStr.strip (stdout result)) ""))
     | Raise e => Raise e
     end, seen os [Spawn (ls_tree_cmd commit_hash sd) (Some repo_path)]).
Proof.
  unfold _has_subpath, mbind, M_bind. rewrite run_spawn.
  unfold ls_tree_answer, ls_tree_cmd. by destruct (spawn W _ _ _ _).
Qed.

Lemma track_subdir_run W repo_path commit_hash acc sd os :
  track_subdir W repo_path commit_hash acc sd os =
    match _has_subpath W repo_path commit_hash sd os with
    | (Ok true, os1) =>
        let '(r, os2) := _cloc_from_archive W repo_path commit_hash (Some sd) os1 in
        (recorded acc sd r, os2)
    | (Ok false, os1) => (Ok (<[sd := 0]> acc.1, <[sd := ∅]> acc.2), os1)
    | (Raise e, os1) => (Raise e, os1)
    end.
Proof.
  unfold track_subdir, mbind, M_bind.
  destruct (_has_subpath W repo_path commit_hash sd os) as [[[|]|e] os1]; [|done..].
  by destruct (_cloc_from_archive W repo_path commit_hash (Some sd) os1)
    as [[[total by_lang]|e] os2].
Qed.

Lemma normalize_given x : given (Some (normalize x)) = ["--"; normalize x].
Proof.
  unfold normalize. by destruct (PyStr.strip_chars "/" x).
Qed.

(** C5, as the code has it. For a tracked path [sd]: when [_has_subpath]
    says it is absent, the loop body records [(0, {})] for it, raises
    nothing, and runs nothing but [git ls-tree]; when it says present, the
    body runs [git archive] on [sd], then [cloc] if [git archive] exited with
    zero, and records what [_cloc_from_archive] returns or raises what it
    raises. *)
Theorem track_subdir_by_presence W repo_path commit_hash acc x os present :
  let sd := normalize x in
  let os1 := seen os [Spawn (ls_tree_cmd commit_hash sd) (Some repo_path)] in
  (_has_subpath W repo_path commit_hash sd os).1 = Ok present →
  if present then
    let '(r, os2) := _cloc_from_archive W repo_path commit_hash (Some sd) os1 in
    track_subdir W repo_path commit_hash acc sd os = (recorded acc sd r, os2)
    ∧ trace os2 =
        trace os1 ++ Spawn ["git"; "archive"; commit_hash; "--"; sd] (Some repo_path)
        :: (if ended_well (archive_answer W repo_path commit_hash (Some sd) os1)
            then [Spawn (cloc_cmd W os1) None] else [])
  else
    track_subdir W repo_path commit_hash acc sd os
      = (Ok (<[sd := 0]> acc.1, <[sd := ∅]> acc.2), os1).
Proof.
  intros sd os1 Hpresent.
  rewrite track_subdir_run. rewrite has_subpath_run in Hpresent |- *.
  simpl in Hpresent. rewrite Hpresent. fold os1.
  destruct present; [|done].
  rewrite cloc_from_archive_run. unfold archive_cmd.
  pose proof (normalize_given x) as Hg. fold sd in Hg. rewrite Hg. simpl.
  destruct (archive_answer _ _ _ _ _) as [proc|e]; simpl; [|done].
  destruct (bool_decide_reflect (returncode proc = 0)) as [Hz|Hnz].
  - rewrite bool_decide_false by (by intros ?).
    destruct (cloc_answer _ _ _) as [c|e]; [|done].
    by destruct (bool_decide (returncode c ≠ 0)).
  - by rewrite bool_decide_true.
Qed.

Lemma track_subdir_by_presence_witness :
  track_subdir demo "/repo" "a2" (∅, ∅) "apps/web/" boot
  = (Ok (<["apps/web/" := 0]> ∅, <["apps/web/" := ∅]> ∅),
     seen boot [Spawn (ls_tree_cmd "a2" "apps/web/") (Some "/repo")]).
Proof.
  apply (track_subdir_by_presence demo "/repo" "a2" (∅, ∅) "apps/web" boot false).
  vm_compute. reflexivity.
Defined.

(** The scenario of the specification: [apps/web] is absent in January and
    present in February, and neither month raises. *)
Example absent_then_present :
  match (collect_snapshots demo "/repo" "main" (Some ["apps/web"]) (Some report) boot).1 with
  | Ok snapshots =>
      Some ((λ s, (month s, subdir_totals s !! "apps/web/",
                   subdir_by_lang s !! "apps/web/")) <$> snapshots)
  | Raise _ => None
  end
  = Some [ ("2024-01", Some 0, Some (∅ : gmap string Z));
           ("2024-02", Some 40, Some {[ "Python" := 40 ]}) ].
Proof. vm_compute. reflexivity. Qed.

(** C5 as stated fails: with [apps/web] present in February and
    [git archive] out of time on it, the loop body raises, and so does
    [collect_snapshots]. *)
Lemma present_subdir_can_raise :
  let err := TimeoutExpired ["git"; "archive"; "a3"; "--"; "apps/web/"] in
  (_has_subpath slow_subdir_archive "/repo" "a3" "apps/web/" boot).1 = Ok true
  ∧ (track_subdir slow_subdir_archive "/repo" "a3" (∅, ∅) "apps/web/" boot).1
    = Raise err
  ∧ (collect_snapshots slow_subdir_archive "/repo" "main" (Some ["apps/web"]) None boot).1
    = Raise err.
Proof. vm_compute. done. Qed.

(** ** Key sets of a snapshot *)

Lemma M_bind_Ok {A B} (m : M A) (k : A → M B) os b os' :
  (m ≫= k) os = (Ok b, os') → ∃ a os1, m os = (Ok a, os1) ∧ k a os1 = (Ok b, os').
Proof.
  unfold mbind, M_bind. destruct (m os) as [[a|e] os1]; [eauto|done].
Qed.

Lemma track_subdir_dom W repo_path commit_hash acc sd os acc' os' :
  track_subdir W repo_path commit_hash acc sd os = (Ok acc', os') →
  dom acc'.1 = {[sd]} ∪ dom acc.1 ∧ dom acc'.2 = {[sd]} ∪ dom acc.2.
Proof.
  rewrite track_subdir_run.
  destruct (_has_subpath _ _ _ _ _) as [[[|]|e] os1]; [| |done].
  - destruct (_cloc_from_archive _ _ _ _ _) as [[[total by_lang]|e] os2]; [|done].
    intros [= <- <-]. simpl. by rewrite !dom_insert_L.
  - intros [= <- <-]. simpl. by rewrite !dom_insert_L.
Qed.

Lemma tracked_dom W repo_path commit_hash sds acc os acc' os' :
  forM (track_subdir W repo_path commit_hash) acc sds os = (Ok acc', os') →
  dom acc'.1 = list_to_set sds ∪ dom acc.1
  ∧ dom acc'.2 = list_to_set sds ∪ dom acc.2.
Proof.
  revert acc os. induction sds as [|sd sds IH]; intros acc os; simpl.
  - intros [= <- <-]. by rewrite !(left_id_L ∅ (∪)).
  - intros (acc1 & os1 & H1 & H2)%M_bind_Ok.
    apply track_subdir_dom in H1 as [H1a H1b].
    apply IH in H2 as [H2a H2b]. rewrite H2a, H2b, H1a, H1b.
    by rewrite !(assoc_L (∪)), !(comm_L (∪) (list_to_set sds) {[sd]}).
Qed.

Lemma snapshot_of_dom W repo_path sds on_progress n i e os s os' :
  snapshot_of W repo_path sds on_progress n i e os = (Ok s, os') →
  dom (subdir_totals s) = list_to_set sds
  ∧ dom (subdir_by_lang s) = list_to_set sds.
Proof.
  unfold snapshot_of.
  intros (_ & os1 & _ & H)%M_bind_Ok.
  apply M_bind_Ok in H as ([total by_lang] & os2 & _ & H).
  apply M_bind_Ok in H as ([totals by_langs] & os3 & Hsub & H).
  injection H as <- <-. simpl.
  apply tracked_dom in Hsub as [H1 H2]. simpl in H1, H2.
  rewrite H1, H2, !dom_empty_L. split; by rewrite (right_id_L ∅ (∪)).
Qed.

Lemma for_enumerate_Forall {A B} (body : nat → A → M B) (P : B → Prop) l :
  (∀ i x os y os', body i x os = (Ok y, os') → P y) →
  ∀ i os ys os', for_enumerate body i l os = (Ok ys, os') → Forall P ys.
Proof.
  intros Hbody. induction l as [|x l IH]; intros i os ys os'; simpl.
  - intros [= <- <-]. constructor.
  - intros (y & os1 & Hy & H)%M_bind_Ok.
    apply M_bind_Ok in H as (ys' & os2 & Hys & [= <- <-]).
    constructor; [by eapply Hbody|by eapply IH].
Qed.

(** C4. In every snapshot that [collect_snapshots] returns, the keys of
    [subdir_totals] and those of [subdir_by_lang] are the same set: the
    normal forms of the tracked paths, whether a path was absent, failed to
    be counted or was counted. *)
Theorem snapshot_subdir_keys W repo_path branch subdirs on_progress os snapshots os' :
  collect_snapshots W repo_path branch subdirs on_progress os = (Ok snapshots, os') →
  let tracked : gset string := list_to_set (normalize <$> default [] subdirs) in
  Forall (λ s, dom (subdir_totals s) = tracked ∧ dom (subdir_by_lang s) = tracked)
    snapshots.
Proof.
  rewrite collect_snapshots_run.
  destruct (get_monthly_commits _ _ _ _) as [[commits|e] os1]; [|done].
  intros H tracked. eapply for_enumerate_Forall; [|exact H].
  intros i x os2 s os3. apply snapshot_of_dom.
Qed.

Lemma snapshot_subdir_keys_witness :
  Forall (λ s, dom (subdir_totals s) = list_to_set ["apps/web/"]
               ∧ dom (subdir_by_lang s) = list_to_set ["apps/web/"])
    demo_snapshots.
Proof.
  apply (snapshot_subdir_keys demo "/repo" "main" (Some ["apps/web"]) (Some report)
           boot demo_snapshots demo_run.2).
  vm_compute. reflexivity.
Defined.

(** ** The rows of the counting tool *)

Lemma cloc_fold lines acc :
  for_each cloc_step acc lines =
    rows ← for_list read_row lines; Ok (foldl count_row acc rows).
Proof.
  revert acc. induction lines as [|line lines IH]; intros acc; simpl; [done|].
  change (cloc_step acc line) with (read_row line ≫= λ row, mret (count_row acc row)).
  destruct (read_row line) as [row|e]; simpl; [|done].
  rewrite IH. by destruct (for_list read_row lines).
Qed.

Lemma count_rows rows total by_lang :
  foldl count_row (total, by_lang) rows =
    (default total (last (sums (counted rows))),
     foldl set_lang by_lang (langs (counted rows))).
Proof.
  revert total by_lang.
  induction rows as [|[[lang code]|] rows IH]; intros total by_lang; simpl; [done| |].
  - unfold counted, sums, langs in *. simpl.
    destruct (String.eqb_spec lang "SUM") as [->|Hne]; simpl.
    + rewrite IH. f_equal. rewrite last_cons. by destruct (last _).
    + rewrite IH. rewrite (filter_cons_False (λ r, r.1 = "SUM")) by done.
      by rewrite (filter_cons_True (λ r, r.1 ≠ "SUM")) by done.
  - apply IH.
Qed.



Lemma set_langs_lookup_None data by_lang lang :
  by_lang !! lang = None → lang ∉ data.*1 →
  foldl set_lang by_lang data !! lang = None.
Proof.
  revert by_lang. induction data as [|[k v] data IH]; intros by_lang; simpl; [done|].
  intros Hnone [Hne Hnotin]%not_elem_of_cons. apply IH; [|done].
  unfold set_lang. simpl. by rewrite lookup_insert_ne.
Qed.

Lemma SUM_not_in_langs data : "SUM" ∉ (langs data).*1.
Proof.
  unfold langs. intros ([k v] & Hk & [Hne _]%list_elem_of_filter)%list_elem_of_fmap.
  simpl in *. by subst.
Qed.

Lemma parse_cloc_run out :
  parse_cloc out =
    rows ← for_list read_row (PyStr.splitlines (PyStr.strip out));
    Ok (default 0 (last (sums (counted rows))),
        foldl set_lang ∅ (langs (counted rows))).
Proof.
  unfold parse_cloc. rewrite cloc_fold.
  destruct (for_list read_row _) as [rows|e]; simpl; [|done].
  by rewrite count_rows.
Qed.

Lemma read_row_cases c rest :
  let line := String c rest in
  let parts := PyStr.split_on ","%char line in
  read_row line =
    if PyStr.startswith "files" line then Ok None
    else if negb (PyStr.isdigit c) then Ok None
    else if bool_decide (length parts < 5)%nat then Ok None
    else lang ← getitem parts 1;
         field ← getitem parts 4;
         code ← or_raise ValueError (PyStr.int field);
         Ok (Some (lang, code)).
Proof.
  intros line parts. unfold read_row. fold line. fold parts.
  destruct (PyStr.startswith "files" line); [done|].
  change (getchar line 0) with (Ok c : outcome ascii). simpl.
  destruct (PyStr.isdigit c); [|done]. simpl.
  by destruct (bool_decide (length parts < 5)%nat).
Qed.

Lemma read_row_countable line :
  countable_line line → ∃ row, read_row line = Ok row.
Proof.
  destruct line as [|c rest]; [done|]. unfold countable_line.
  rewrite read_row_cases.
  intros H. destruct (PyStr.startswith _ _); [by eexists|].
  destruct (PyStr.isdigit c); simpl; [|by eexists].
  destruct (bool_decide_reflect
              (length (PyStr.split_on ","%char (String c rest)) < 5)%nat)
    as [|Hlen]; [by eexists|].
  destruct H as [?|[?|[?|[code Hcode]]]]; [done..|].
  destruct (PyStr.split_on ","%char (String c rest) !! 4%nat) as [field|] eqn:H4;
    [|done].
  destruct (lookup_lt_is_Some_2 (PyStr.split_on ","%char (String c rest)) 1)
    as [lang H1]; [lia|].
  unfold getitem. rewrite H1, H4. simpl in *. rewrite Hcode. by eexists.
Qed.

Lemma for_list_total {A B} (f : A → outcome B) l :
  Forall (λ x, ∃ y, f x = Ok y) l → ∃ ys, for_list f l = Ok ys.
Proof.
  induction 1 as [|x l [y Hy] _ [ys IH]]; simpl; [by eexists|].
  rewrite Hy, IH. by eexists.
Qed.

(** C6, as the code has it. A line that starts with [files] or with a
    character that is no digit is skipped, and so is a line with fewer than
    five fields; a line that starts with a digit and has an integer in its
    fifth field is counted. The total is the code count of the last [SUM] row
    (0 without one) and [SUM] is no key of the mapping. When every line is not
    empty and is either skipped or has an integer in its fifth field, the
    parse ends with a result. *)
Theorem parse_cloc_rows out :
  let lines := PyStr.splitlines (PyStr.strip out) in
  (∀ c rest, let line := String c rest in
     PyStr.startswith "files" line = true ∨ PyStr.isdigit c = false
     ∨ (length (PyStr.split_on ","%char line) < 5)%nat →
     read_row line = Ok None)
  ∧ (∀ c rest lang code, let line := String c rest in
       PyStr.startswith "files" line = false → PyStr.isdigit c = true →
       (5 ≤ length (PyStr.split_on ","%char line))%nat →
       PyStr.split_on ","%char line !! 1%nat = Some lang →
       PyStr.split_on ","%char line !! 4%nat ≫= PyStr.int = Some code →
       read_row line = Ok (Some (lang, code)))
  ∧ (∀ total by_lang, parse_cloc out = Ok (total, by_lang) →
       by_lang !! "SUM" = None
       ∧ ∃ rows, for_list read_row lines = Ok rows
                 ∧ total = default 0 (last (sums (counted rows))))
  ∧ (Forall countable_line lines → ∃ r, parse_cloc out = Ok r).
Proof.
  intros lines. split; [|split; [|split]].
  - intros c rest line H. subst line. rewrite read_row_cases.
    destruct (PyStr.startswith "files" _); [done|].
    destruct (PyStr.isdigit c); [|done]. simpl.
    destruct H as [?|[?|H]]; [done..|]. by rewrite bool_decide_true.
  - intros c rest lang code line Hfiles Hdigit Hlen H1 H4. subst line.
    rewrite read_row_cases, Hfiles, Hdigit. simpl.
    rewrite bool_decide_false by lia.
    destruct (PyStr.split_on ","%char _ !! 4%nat) as [field|] eqn:Hf; [|done].
    unfold getitem. rewrite H1, Hf. simpl in *. by rewrite H4.
  - intros total by_lang. rewrite parse_cloc_run. fold lines.
    destruct (for_list read_row lines) as [rows|e]; [|done].
    intros [= <- <-]. split; [|by exists rows].
    apply set_langs_lookup_None; [done|apply SUM_not_in_langs].
  - intros Hlines. rewrite parse_cloc_run. fold lines.
    destruct (for_list_total read_row lines) as [rows ->]; [|by eexists].
    eapply Forall_impl; [exact Hlines|]. apply read_row_countable.
Qed.

Lemma repo_csv_lines :
  PyStr.splitlines (PyStr.strip repo_csv)
  = ["files,language,blank,comment,code"; "3,Python,9,4,100"; "1,C,2,0,20";
     "4,SUM,11,4,120"].
Proof. vm_compute. reflexivity. Qed.

Lemma parse_cloc_rows_witness :
  read_row "files,language,blank,comment,code" = Ok None
  ∧ read_row "3,Python,9,4,100" = Ok (Some ("Python", 100))
  ∧ (<["C" := 20]> {["Python" := 100]} : gmap string Z) !! "SUM" = None
  ∧ ∃ r, parse_cloc repo_csv = Ok r.
Proof.
  split; [|split; [|split]].
  - apply (proj1 (parse_cloc_rows repo_csv) "f"%char "iles,language,blank,comment,code").
    left. vm_compute. reflexivity.
  - apply (proj1 (proj2 (parse_cloc_rows repo_csv))
             "3"%char ",Python,9,4,100" "Python" 100).
    + vm_compute. reflexivity.
    + vm_compute. reflexivity.
    + vm_compute. repeat constructor.
    + vm_compute. reflexivity.
    + vm_compute. reflexivity.
  - apply (proj1 (proj2 (proj2 (parse_cloc_rows repo_csv)))
             120 (<["C" := 20]> {["Python" := 100]})).
    vm_compute. reflexivity.
  - apply (proj2 (proj2 (proj2 (parse_cloc_rows repo_csv)))).
    rewrite repo_csv_lines.
    apply Forall_cons_2; [left; vm_compute; reflexivity|].
    repeat (apply Forall_cons_2;
            [do 3 right; eexists; vm_compute; reflexivity|]).
    apply Forall_nil_2.
Defined.

(** C6 as stated fails: a row of five fields whose code is no integer
    aborts the parse, and so does an empty line between two rows. *)
Lemma parse_cloc_can_abort :
  parse_cloc "1,Python,0,0,n/a" = Raise ValueError
  ∧ parse_cloc ("1,Python,0,0,7" +:+ LF +:+ LF +:+ "1,SUM,0,0,7") = Raise IndexError.
Proof. vm_compute. done. Qed.

(** ** Totals *)





(** ** Timestamps *)

(** C9, as the code has it. The entry of a commit line holds the first
    field as hash, the first seven characters of the second field as month,
    and as date what [fromisoformat] reads in the second and third fields
    joined by [T]; the fields after the third, the UTC offset among them,
    play no part. *)
Theorem read_commit_fields line e :
  read_commit line = Ok e →
  ∃ h d t rest,
    PyStr.split line = h :: d :: t :: rest
    ∧ entry_hash e = h
    ∧ entry_month e = PyStr.upto 7 d
    ∧ Iso.fromisoformat (d +:+ "T" +:+ t) = Some (entry_date e)
    ∧ ∀ line', take 3 (PyStr.split line') = [h; d; t] → read_commit line' = Ok e.
Proof.
  unfold read_commit, getitem.
  destruct (PyStr.split line) as [|h [|d [|t rest]]]; simpl; [done..|].
  destruct (Iso.fromisoformat (d +:+ "T" +:+ t)) as [date|] eqn:Hdate; simpl; [|done].
  intros [= <-]. exists h, d, t, rest. simpl.
  do 4 (split; [done|]). intros line' Hline'.
  destruct (PyStr.split line') as [|h' [|d' [|t' rest']]]; simpl in *; [done..|].
  injection Hline' as -> -> ->. by rewrite Hdate.
Qed.

Lemma read_commit_fields_witness :
  ∃ h d t rest,
    PyStr.split "a3 2024-02-03 18:45:10 -0800" = h :: d :: t :: rest
    ∧ "a3" = h
    ∧ "2024-02" = PyStr.upto 7 d
    ∧ Iso.fromisoformat (d +:+ "T" +:+ t)
      = Some {| dt_year := 2024; dt_month := 2; dt_day := 3; dt_hour := 18;
                dt_minute := 45; dt_second := 10; dt_tzinfo := None |}
    ∧ ∀ line', take 3 (PyStr.split line') = [h; d; t] →
        read_commit line'
        = Ok {| entry_hash := "a3";
                entry_date := {| dt_year := 2024; dt_month := 2; dt_day := 3;
                                 dt_hour := 18; dt_minute := 45; dt_second := 10;
                                 dt_tzinfo := None |};
                entry_month := "2024-02" |}.
Proof.
  apply (read_commit_fields "a3 2024-02-03 18:45:10 -0800"
           {| entry_hash := "a3";
              entry_date := {| dt_year := 2024; dt_month := 2; dt_day := 3;
                               dt_hour := 18; dt_minute := 45; dt_second := 10;
                               dt_tzinfo := None |};
              entry_month := "2024-02" |}).
  vm_compute. reflexivity.
Defined.

(** C9 as stated fails: two commits authored at the same local time in
    different time zones give the same entry, and its date has no offset. *)
Lemma commit_date_drops_offset :
  ∃ e, read_commit "a1 2024-01-05 10:00:00 +0100" = Ok e
       ∧ read_commit "a1 2024-01-05 10:00:00 -0800" = Ok e
       ∧ dt_tzinfo (entry_date e) = None.
Proof. eexists. split; [vm_compute; reflexivity|]. split; vm_compute; reflexivity. Qed.

(** ** Percentages *)


Lemma float_overflow_large : 2 ≤ float_overflow.
Proof. by vm_compute. Qed.

(** [subdir_pct], case by case. *)
Lemma subdir_pct_cases self subdir :
  let count := default 0 (subdir_totals self !! subdir) in
  subdir_pct self subdir =
    if bool_decide (repo_total self = 0) then Ok (Qc_of_Z 0)
    else if bool_decide (float_overflow * Z.abs (repo_total self) ≤ Z.abs count)
         then Raise OverflowError
         else Ok (Qcanon.Qcmult
                    (Qcanon.Qcdiv (Qc_of_Z count) (Qc_of_Z (repo_total self)))
                    (Qc_of_Z 100)).
Proof.
  intros count. unfold subdir_pct, truediv. fold count.
  destruct (bool_decide (repo_total self = 0)); [done|].
  by destruct (bool_decide (float_overflow * _ ≤ _)).
Qed.



Example subdir_pct_ex :
  subdir_pct {| month := "2024-02"; commit_hash := "a3";
                commit_date := {| dt_year := 2024; dt_month := 2; dt_day := 3;
                                  dt_hour := 18; dt_minute := 45;
                                  dt_second := 10; dt_tzinfo := None |};
                repo_total := 160; repo_by_lang := ∅;
                subdir_totals := {[ "apps/web/" := 40 ]};
                subdir_by_lang := ∅ |} "apps/web/"
  = Ok (Qc_of_Z 25).
Proof.
  unfold subdir_pct, truediv. cbn [repo_total subdir_totals].
  rewrite lookup_singleton_eq. simpl. f_equal.
  apply Qcanon.Qc_is_canon. reflexivity.
Qed.

(** A tracked path keeps its key when its count fails. *)
Example failed_subdir_keeps_key :
  match (collect_snapshots failing_cloc "/repo" "main" (Some ["/apps/web/"]) None boot).1 with
  | Ok snapshots =>
      (λ s, (month s, repo_total s, map_to_list (subdir_totals s),
             map_to_list (subdir_by_lang s))) <$> snapshots
      = [ ("2024-01", 0, [("apps/web/", 0)], [("apps/web/", ∅)]);
          ("2024-02", 0, [("apps/web/", 0)], [("apps/web/", ∅)]) ]
  | Raise _ => False
  end.
Proof. vm_compute. reflexivity. Qed.

(** * Further properties *)

(** ** Stripping *)

Section Strip.

Variable p : ascii → bool.

Lemma lstrip_head s :
  match PyStr.lstrip_by p s with
  | "" => True
  | String c _ => p c = false
  end.
Proof.
  induction s as [|c s IH]; simpl; [done|].
  by destruct (p c) eqn:Hc.
Qed.

Lemma rstrip_cons c s :
  PyStr.rstrip_by p (String c s) =
    match PyStr.rstrip_by p s with
    | "" => if p c then "" else String c ""
    | r => String c r
    end.
Proof. reflexivity. Qed.

Lemma rstrip_keeps_head c s :
  p c = false → ∃ r, PyStr.rstrip_by p (String c s) = String c r.
Proof.
  intros Hc. rewrite rstrip_cons, Hc. destruct (PyStr.rstrip_by p s); eauto.
Qed.

Lemma rstrip_idem s :
  PyStr.rstrip_by p (PyStr.rstrip_by p s) = PyStr.rstrip_by p s.
Proof.
  induction s as [|c s IH]; [done|]. rewrite rstrip_cons.
  destruct (PyStr.rstrip_by p s) as [|d r] eqn:Hr.
  - destruct (p c) eqn:Hc; [done|]. by rewrite rstrip_cons, Hc.
  - rewrite rstrip_cons, IH. done.
Qed.

Lemma rstrip_snoc s c :
  p c = true → PyStr.rstrip_by p (s +:+ String c "") = PyStr.rstrip_by p s.
Proof.
  intros Hc. induction s as [|d s IH].
  - change (PyStr.rstrip_by p (String c "") = ""). by rewrite rstrip_cons, Hc.
  - change (PyStr.rstrip_by p (String d (s +:+ String c ""))
            = PyStr.rstrip_by p (String d s)).
    by rewrite !rstrip_cons, IH.
Qed.

Lemma lstrip_rstrip s :
  PyStr.lstrip_by p (PyStr.rstrip_by p s) = PyStr.rstrip_by p (PyStr.lstrip_by p s).
Proof.
  induction s as [|c s IH]; [done|]. rewrite rstrip_cons.
  destruct (p c) eqn:Hc.
  - simpl PyStr.lstrip_by at 2. rewrite Hc, <-IH.
    destruct (PyStr.rstrip_by p s) as [|d r]; [done|]. simpl. by rewrite Hc.
  - simpl PyStr.lstrip_by at 2. rewrite Hc, rstrip_cons, Hc.
    destruct (PyStr.rstrip_by p s) as [|d r]; simpl; by rewrite Hc.
Qed.

Lemma lstrip_idem s :
  PyStr.lstrip_by p (PyStr.lstrip_by p s) = PyStr.lstrip_by p s.
Proof.
  pose proof (lstrip_head s) as H.
  destruct (PyStr.lstrip_by p s) as [|c r]; [done|]. simpl. by rewrite H.
Qed.

(** The result of stripping has nothing left to strip. *)
Lemma strip_by_idem s :
  PyStr.rstrip_by p (PyStr.lstrip_by p (PyStr.rstrip_by p (PyStr.lstrip_by p s)))
  = PyStr.rstrip_by p (PyStr.lstrip_by p s).
Proof. by rewrite lstrip_rstrip, lstrip_idem, rstrip_idem. Qed.

(** Stripping undoes a stripped character added at the end. *)
Lemma strip_by_snoc s c :
  p c = true →
  let core := PyStr.rstrip_by p (PyStr.lstrip_by p s) in
  PyStr.rstrip_by p (PyStr.lstrip_by p (core +:+ String c "")) = core.
Proof.
  intros Hc core. unfold core.
  pose proof (lstrip_head s) as Hh.
  destruct (PyStr.lstrip_by p s) as [|d r] eqn:Hs.
  - change (PyStr.rstrip_by p (PyStr.lstrip_by p (String c "")) = "").
    simpl. by rewrite Hc.
  - destruct (rstrip_keeps_head d r Hh) as [r' Hr]. rewrite Hr.
    change (PyStr.rstrip_by p (PyStr.lstrip_by p (String d (r' +:+ String c "")))
            = String d r').
    simpl PyStr.lstrip_by. rewrite Hh.
    change (PyStr.rstrip_by p (String d r' +:+ String c "") = String d r').
    rewrite rstrip_snoc by done. rewrite <-Hr. apply rstrip_idem.
Qed.

End Strip.

Section StripMore.

Variable p : ascii → bool.

Lemma rstrip_no_tail s r c :
  PyStr.rstrip_by p s = r +:+ String c "" → p c = false.
Proof.
  revert r. induction s as [|d s IH]; intros r.
  - by destruct r.
  - rewrite rstrip_cons. destruct (PyStr.rstrip_by p s) as [|e r0].
    + destruct (p d) eqn:Hd; [by destruct r|].
      destruct r as [|d' [|? ?]]; [|done..]. by intros [= ->].
    + destruct r as [|d' r1]; [done|]. intros [= -> H]. by apply (IH r1).
Qed.

Lemma mem_lstrip c s :
  PyStr.mem c (PyStr.lstrip_by p s) = true → PyStr.mem c s = true.
Proof.
  induction s as [|d s IH]; simpl; [done|].
  destruct (p d); [|done]. intros H%IH. by destruct (Ascii.eqb c d).
Qed.

Lemma mem_rstrip c s :
  PyStr.mem c (PyStr.rstrip_by p s) = true → PyStr.mem c s = true.
Proof.
  induction s as [|d s IH]; [done|]. rewrite rstrip_cons.
  destruct (PyStr.rstrip_by p s) as [|e r].
  - destruct (p d); [done|]. simpl. by destruct (Ascii.eqb c d).
  - simpl in *. destruct (Ascii.eqb c d); [done|]. apply IH.
Qed.

End StripMore.

Lemma split_on_no_sep sep s :
  Forall (λ w, PyStr.mem sep w = false) (PyStr.split_on sep s).
Proof.
  unfold PyStr.split_on.
  induction s as [|c s IH]; simpl; [by repeat constructor|].
  destruct (Ascii.eqb c sep) eqn:Hc; [by constructor|].
  assert (∀ w, PyStr.mem sep w = false → PyStr.mem sep (String c w) = false) as Hcons.
  { intros w Hw. simpl. by rewrite Ascii.eqb_sym, Hc. }
  destruct IH as [|w ws Hw Hws]; constructor; auto.
Qed.

(** ** Tracked paths *)

(** X1. The label of a normalized path is the label of the path, the
    normal form of a label is the normal form of the path, and normalizing
    twice is normalizing once. *)
Theorem normalize_label_stable sd :
  _subdir_label (normalize sd) = _subdir_label sd
  ∧ normalize (_subdir_label sd) = normalize sd
  ∧ normalize (normalize sd) = normalize sd.
Proof.
  assert (_subdir_label (normalize sd) = _subdir_label sd) as Hlabel.
  { unfold _subdir_label, normalize, PyStr.strip_chars.
    by apply (strip_by_snoc (λ c, PyStr.mem c "/") sd "/"%char). }
  split; [done|]. split.
  - unfold normalize, _subdir_label, PyStr.strip_chars. by rewrite strip_by_idem.
  - unfold normalize at 1 3. fold (_subdir_label (normalize sd)).
    fold (_subdir_label sd). by rewrite Hlabel.
Qed.

(** X2. A normalized path is its label followed by one slash; the label
    neither starts nor ends with a slash, and a path made of slashes only,
    the empty path among them, has the normal form [/]. *)
Theorem normalize_shape sd :
  let core := _subdir_label sd in
  normalize sd = core +:+ "/"
  ∧ (∀ r, core ≠ "/" +:+ r)
  ∧ (∀ r, core ≠ r +:+ "/")
  ∧ (PyStr.lstrip_by is_slash sd = "" → normalize sd = "/").
Proof.
  intros core. split; [done|]. split; [|split].
  - intros r Hcore. unfold core, _subdir_label, PyStr.strip_chars in Hcore.
    change (λ c, PyStr.mem c "/") with is_slash in Hcore.
    pose proof (lstrip_head is_slash sd) as Hh.
    destruct (PyStr.lstrip_by is_slash sd) as [|d s]; [done|].
    destruct (rstrip_keeps_head is_slash d s Hh) as [r' Hr]. rewrite Hr in Hcore.
    injection Hcore as -> _. done.
  - intros r Hcore. unfold core, _subdir_label, PyStr.strip_chars in Hcore.
    change (λ c, PyStr.mem c "/") with is_slash in Hcore.
    by apply rstrip_no_tail in Hcore.
  - intros Hs. unfold normalize, PyStr.strip_chars.
    change (λ c, PyStr.mem c "/") with is_slash. by rewrite Hs.
Qed.

(** X3. The tracked paths read from the command line are not empty, have
    no white space at either end and hold no comma; an empty argument gives
    no path. *)
Theorem parse_subdirs_clean arg :
  Forall (λ sd, sd ≠ "" ∧ PyStr.strip sd = sd ∧ ¬ has_char ","%char sd)
    (parse_subdirs arg)
  ∧ parse_subdirs "" = [].
Proof.
  split; [|done]. unfold parse_subdirs.
  destruct (String.eqb arg ""); [constructor|].
  pose proof (split_on_no_sep ","%char arg) as Hsep.
  induction Hsep as [|w ws Hw _ IH]; [constructor|]. simpl.
  destruct (String.eqb_spec (PyStr.strip w) "") as [|Hne]; [done|].
  constructor; [|done]. split; [done|]. split.
  - unfold PyStr.strip. apply strip_by_idem.
  - unfold has_char, PyStr.strip. intros H%mem_rstrip%mem_lstrip. congruence.
Qed.

Lemma normalize_shape_witness : normalize "///" = "/".
Proof.
  apply (proj2 (proj2 (proj2 (normalize_shape "///")))). reflexivity.
Defined.

(** ** Snapshots, month by month *)

(** X4. In every snapshot that [collect_snapshots] returns, each tracked
    path is found under its normal form in both dictionaries, so the
    lookups of the command line and of the report never fall back on their
    default. *)
Theorem tracked_paths_are_keys W repo_path branch subdirs on_progress os snapshots os' :
  collect_snapshots W repo_path branch (Some subdirs) on_progress os
    = (Ok snapshots, os') →
  ∀ s sd, s ∈ snapshots → sd ∈ subdirs →
    is_Some (subdir_totals s !! normalize sd)
    ∧ is_Some (subdir_by_lang s !! normalize sd).
Proof.
  rewrite collect_snapshots_run.
  destruct (get_monthly_commits _ _ _ _) as [[commits|e] os1]; [|done].
  intros H s sd Hs Hsd.
  assert (Forall (λ s, dom (subdir_totals s) = list_to_set (normalize <$> subdirs)
                       ∧ dom (subdir_by_lang s) = list_to_set (normalize <$> subdirs))
            snapshots) as Hdom.
  { eapply for_enumerate_Forall; [|exact H].
    intros i x os2 s' os3. apply snapshot_of_dom. }
  apply (proj1 (Forall_forall _ _) Hdom) in Hs as [H1 H2].
  rewrite <-!elem_of_dom, H1, H2, elem_of_list_to_set.
  split; by apply list_elem_of_fmap_2.
Qed.

Lemma tracked_paths_are_keys_witness :
  Forall (λ s, is_Some (subdir_totals s !! normalize "apps/web")
               ∧ is_Some (subdir_by_lang s !! normalize "apps/web"))
    demo_snapshots.
Proof.
  apply Forall_forall. intros s Hs.
  apply (tracked_paths_are_keys demo "/repo" "main" ["apps/web"] (Some report)
           boot demo_snapshots demo_run.2).
  - vm_compute. reflexivity.
  - exact Hs.
  - apply list_elem_of_singleton. reflexivity.
Defined.

Lemma for_enumerate_Forall2 {A B} (body : nat → A → M B) (R : A → B → Prop) l :
  (∀ i x os y os', body i x os = (Ok y, os') → R x y) →
  ∀ i os ys os', for_enumerate body i l os = (Ok ys, os') → Forall2 R l ys.
Proof.
  intros Hbody. induction l as [|x l IH]; intros i os ys os'; simpl.
  - intros [= <- <-]. constructor.
  - intros (y & os1 & Hy & H)%M_bind_Ok.
    apply M_bind_Ok in H as (ys' & os2 & Hys & [= <- <-]).
    constructor; [by eapply Hbody|by eapply IH].
Qed.

Lemma snapshot_of_entry W repo_path sds on_progress n i e os s os' :
  snapshot_of W repo_path sds on_progress n i e os = (Ok s, os') → snapshot_for e s.
Proof.
  unfold snapshot_of.
  intros (_ & os1 & _ & H)%M_bind_Ok.
  apply M_bind_Ok in H as ([total by_lang] & os2 & _ & H).
  apply M_bind_Ok in H as ([totals by_langs] & os3 & _ & H).
  by injection H as <- <-.
Qed.

Lemma monthly_commits_sorted out commits :
  monthly_commits out = Ok commits →
  StronglySorted (strict String.le) (entry_month <$> commits).
Proof.
  intros Hc. pose proof Hc as Hc'. unfold monthly_commits in Hc'.
  apply outcome_bind_Ok in Hc' as (monthly & Hfold & _).
  apply monthly_fold_inv in Hfold as (es & Hes & _).
  destruct (monthly_commits_spec out) as (commits' & Hc2 & Hsorted & _).
  { clear -Hes. induction Hes; constructor; eauto. }
  rewrite Hc in Hc2. by injection Hc2 as <-.
Qed.

(** X5. The snapshots that [collect_snapshots] returns are those of the
    entries of [get_monthly_commits], one for each and in the same order, so
    they are strictly ascending by month. *)
Theorem snapshots_follow_months W repo_path branch subdirs on_progress os snapshots os' :
  collect_snapshots W repo_path branch subdirs on_progress os = (Ok snapshots, os') →
  ∃ commits,
    (get_monthly_commits W repo_path branch os).1 = Ok commits
    ∧ Forall2 snapshot_for commits snapshots
    ∧ StronglySorted (strict String.le) (month <$> snapshots).
Proof.
  rewrite collect_snapshots_run.
  destruct (get_monthly_commits W repo_path branch os) as [[commits|e] os1] eqn:Hget;
    [|done].
  intros H. exists commits. split; [done|].
  assert (Forall2 snapshot_for commits snapshots) as Hfor.
  { eapply for_enumerate_Forall2; [|exact H].
    intros i x os2 s os3. apply snapshot_of_entry. }
  split; [done|].
  assert (month <$> snapshots = entry_month <$> commits) as ->.
  { clear -Hfor. induction Hfor as [|e s es ss (Hm & _) _ IH]; [done|].
    rewrite !fmap_cons. by f_equal. }
  rewrite get_monthly_commits_run in Hget.
  destruct (log_answer _ _ _ _) as [result|e]; [|done].
  destruct (bool_decide (returncode result ≠ 0)); [done|].
  injection Hget as Hget _. by eapply monthly_commits_sorted.
Qed.

Lemma snapshots_follow_months_witness :
  ∃ commits,
    (get_monthly_commits demo "/repo" "main" boot).1 = Ok commits
    ∧ Forall2 snapshot_for commits demo_snapshots
    ∧ StronglySorted (strict String.le) (month <$> demo_snapshots).
Proof.
  apply (snapshots_follow_months demo "/repo" "main" (Some ["apps/web"])
           (Some report) boot demo_snapshots demo_run.2).
  vm_compute. reflexivity.
Defined.

(** ** What a run leaves behind *)

Section Frames.

(** A relation [R] between the state before and after, kept by every step
    that starts in a state satisfying [I]. *)
Variable R : OS → OS → Prop.
Variable I : OS → Prop.
Hypothesis R_refl : ∀ os, R os os.
Hypothesis R_trans : ∀ os1 os2 os3, R os1 os2 → R os2 os3 → R os1 os3.
Hypothesis I_step : ∀ os os', I os → R os os' → I os'.

Local Abbreviation respects := (respects R I).

Lemma respects_ret {A} (a : A) : respects (mret a).
Proof. intros os _. apply R_refl. Qed.

Lemma respects_raise {A} e : respects (raise e : M A).
Proof. intros os _. apply R_refl. Qed.

Lemma respects_lift {A} (o : outcome A) : respects (lift o).
Proof. intros os _. apply R_refl. Qed.

Lemma respects_bind {A B} (m : M A) (k : A → M B) :
  respects m → (∀ a, respects (k a)) → respects (m ≫= k).
Proof.
  intros Hm Hk os HI. specialize (Hm os HI). unfold mbind, M_bind.
  destruct (m os) as [[a|e] os1]; simpl in *; [|done].
  eapply R_trans; [exact Hm|]. apply Hk. by eapply I_step.
Qed.

Lemma respects_forM {A S} (body : S → A → M S) s l :
  (∀ s x, respects (body s x)) → respects (forM body s l).
Proof.
  intros Hbody. revert s. induction l as [|x l IH]; intros s; simpl.
  - apply respects_ret.
  - apply respects_bind; [apply Hbody|]. intros s'. apply IH.
Qed.

Lemma respects_for_enumerate {A B} (body : nat → A → M B) i l :
  (∀ i x, respects (body i x)) → respects (for_enumerate body i l).
Proof.
  intros Hbody. revert i. induction l as [|x l IH]; intros i; simpl.
  - apply respects_ret.
  - apply respects_bind; [apply Hbody|]. intros y.
    apply respects_bind; [apply IH|]. intros ys. apply respects_ret.
Qed.

Variable W : World.
Hypothesis respects_run : ∀ cmd cwd, read_only_cmd cmd = true → respects (_run W cmd cwd).
Hypothesis respects_extract : ∀ repo_path commit_hash subpath,
  respects (_cloc_from_archive W repo_path commit_hash subpath).

Lemma respects_get_monthly_commits repo_path branch :
  respects (get_monthly_commits W repo_path branch).
Proof.
  unfold get_monthly_commits. apply respects_bind; [by apply respects_run|].
  intros result. destruct (bool_decide _); [apply respects_raise|apply respects_lift].
Qed.

Lemma respects_has_subpath repo_path commit_hash sd :
  respects (_has_subpath W repo_path commit_hash sd).
Proof.
  unfold _has_subpath. apply respects_bind; [by apply respects_run|].
  intros result. apply respects_ret.
Qed.

Lemma respects_track_subdir repo_path commit_hash acc sd :
  respects (track_subdir W repo_path commit_hash acc sd).
Proof.
  unfold track_subdir. apply respects_bind; [apply respects_has_subpath|].
  intros [|]; [|apply respects_ret].
  apply respects_bind; [apply respects_extract|].
  intros [total by_lang]. apply respects_ret.
Qed.

Lemma respects_collect_snapshots repo_path branch subdirs on_progress :
  (∀ notify i n m, on_progress = Some notify → respects (notify i n m)) →
  respects (collect_snapshots W repo_path branch subdirs on_progress).
Proof.
  intros Hnotify. unfold collect_snapshots.
  apply respects_bind; [apply respects_get_monthly_commits|].
  intros commits. apply respects_for_enumerate. intros i e. unfold snapshot_of.
  apply respects_bind.
  { destruct on_progress as [notify|]; [by apply Hnotify|apply respects_ret]. }
  intros _. apply respects_bind; [apply respects_extract|].
  intros [total by_lang]. apply respects_bind.
  { apply respects_forM. intros acc sd. apply respects_track_subdir. }
  intros [totals by_langs]. apply respects_ret.
Qed.

End Frames.

Lemma only_added_refl Q os : only_added Q os os.
Proof. exists []. by rewrite app_nil_r. Qed.

Lemma only_added_trans Q os1 os2 os3 :
  only_added Q os1 os2 → only_added Q os2 os3 → only_added Q os1 os3.
Proof.
  intros (evs1 & H1 & HQ1) (evs2 & H2 & HQ2). exists (evs1 ++ evs2).
  split; [by rewrite H2, H1, app_assoc|]. by apply Forall_app.
Qed.

Lemma extraction_harmless W repo_path commit_hash subpath os :
  only_added harmless os (_cloc_from_archive W repo_path commit_hash subpath os).2.
Proof.
  rewrite cloc_from_archive_run.
  assert (harmless (Spawn (archive_cmd commit_hash subpath) (Some repo_path))) as Hgit
    by reflexivity.
  assert (harmless (Spawn (cloc_cmd W os) None)) as Hcloc by reflexivity.
  destruct (archive_answer _ _ _ _ _) as [proc|e];
    [|eexists; split; [done|by repeat constructor]].
  destruct (bool_decide (returncode proc ≠ 0));
    [eexists; split; [done|by repeat constructor]|].
  destruct (cloc_answer _ _ _) as [cloc_result|e];
    [|eexists; split; [done|by repeat constructor]].
  destruct (bool_decide (returncode cloc_result ≠ 0));
    eexists; (split; [done|by repeat constructor]).
Qed.

(** X6. Whether it returns or raises, [collect_snapshots] starts no
    process but [git log], [git archive], [git ls-tree] and [cloc], as long
    as the progress callback starts none. *)
Theorem collect_snapshots_read_only W repo_path branch subdirs on_progress os :
  (∀ notify i n m os1, on_progress = Some notify →
     only_added harmless os1 (notify i n m os1).2) →
  only_added harmless os
    (collect_snapshots W repo_path branch subdirs on_progress os).2.
Proof.
  intros Hnotify.
  apply (respects_collect_snapshots (only_added harmless) (λ _, True)); try done.
  - apply only_added_refl.
  - apply only_added_trans.
  - intros cmd cwd Hcmd os1 _. rewrite run_spawn. exists [Spawn cmd (Some cwd)].
    split; [done|]. by repeat constructor.
  - intros r c sp os1 _. apply extraction_harmless.
  - intros notify i n m -> os1 _. by apply Hnotify.
Qed.

Lemma collect_snapshots_read_only_witness :
  only_added harmless boot
    (collect_snapshots slow_subdir_archive "/repo" "main" (Some ["apps/web"])
       (Some report) boot).2.
Proof.
  apply collect_snapshots_read_only.
  intros notify i n m os1 [= <-]. exists [Progress i n m]. split; [done|].
  by repeat constructor.
Defined.

(** ** Progress *)

Lemma notifications_app tr1 tr2 :
  notifications (tr1 ++ tr2) = notifications tr1 ++ notifications tr2.
Proof. apply omap_app. Qed.

Lemma extraction_silent W repo_path commit_hash subpath os :
  silent os (_cloc_from_archive W repo_path commit_hash subpath os).2.
Proof.
  unfold silent. rewrite cloc_from_archive_run.
  destruct (archive_answer _ _ _ _ _) as [proc|e]; simpl;
    [|by rewrite notifications_app, app_nil_r].
  destruct (bool_decide (returncode proc ≠ 0)); simpl;
    [by rewrite notifications_app, app_nil_r|].
  destruct (cloc_answer _ _ _) as [cloc_result|e]; simpl;
    [|by rewrite notifications_app, app_nil_r].
  destruct (bool_decide (returncode cloc_result ≠ 0)); simpl;
    by rewrite notifications_app, app_nil_r.
Qed.

Lemma run_silent W cmd cwd os : silent os (_run W cmd cwd os).2.
Proof.
  unfold silent. rewrite run_spawn. simpl.
  by rewrite notifications_app, app_nil_r.
Qed.

Lemma silent_trans os1 os2 os3 : silent os1 os2 → silent os2 os3 → silent os1 os3.
Proof. unfold silent. congruence. Qed.

Lemma tracking_silent W repo_path commit_hash acc sds os :
  silent os (forM (track_subdir W repo_path commit_hash) acc sds os).2.
Proof.
  apply (respects_forM silent (λ _, True)); try done.
  - apply silent_trans.
  - intros acc' sd.
    apply (respects_track_subdir silent (λ _, True)); try done.
    + apply silent_trans.
    + intros cmd cwd _ os1 _. apply run_silent.
    + intros r c sp os1 _. apply extraction_silent.
Qed.

Lemma snapshot_of_progress W repo_path sds n i e os s os' :
  snapshot_of W repo_path sds (Some report) n i e os = (Ok s, os') →
  notifications (trace os')
  = notifications (trace os) ++ [((i + 1)%nat, n, month s)].
Proof.
  intros H. pose proof (snapshot_of_entry _ _ _ _ _ _ _ _ _ _ H) as (Hm & _).
  unfold snapshot_of in H.
  apply M_bind_Ok in H as ([] & os1 & Hreport & H).
  apply M_bind_Ok in H as ([total by_lang] & os2 & Hextract & H).
  apply M_bind_Ok in H as ([totals by_langs] & os3 & Htrack & H).
  injection H as _ <-.
  pose proof (tracking_silent W repo_path (entry_hash e) (∅, ∅) sds os2) as H3.
  rewrite Htrack in H3.
  pose proof (extraction_silent W repo_path (entry_hash e) None os1) as H2.
  rewrite Hextract in H2. unfold silent in *. simpl in *.
  rewrite H3, H2. injection Hreport as <-. simpl.
  by rewrite notifications_app, Hm.
Qed.

Lemma enumerate_progress W repo_path sds n commits :
  ∀ i os snapshots os',
    for_enumerate (snapshot_of W repo_path sds (Some report) n) i commits os
      = (Ok snapshots, os') →
    length snapshots = length commits
    ∧ notifications (trace os')
      = notifications (trace os)
        ++ imap (λ k s, ((i + k + 1)%nat, n, month s)) snapshots.
Proof.
  induction commits as [|e commits IH]; intros i os snapshots os'; simpl.
  - intros [= <- <-]. by rewrite app_nil_r.
  - intros (s & os1 & Hs & H)%M_bind_Ok.
    apply M_bind_Ok in H as (ss & os2 & Hss & [= <- <-]).
    apply snapshot_of_progress in Hs. apply IH in Hss as [Hlen Hss].
    split; [simpl; by rewrite Hlen|].
    rewrite Hss, Hs, <-app_assoc. simpl. do 2 f_equal.
    + do 2 f_equal. lia.
    + apply imap_ext. intros k t _. simpl. do 2 f_equal. lia.
Qed.

(** X8. In a run that returns, the progress callback is called once for
    each snapshot, in order, with the index of the month counted from one,
    the number of months and the month. *)
Theorem progress_once_a_month W repo_path branch subdirs os snapshots os' :
  collect_snapshots W repo_path branch subdirs (Some report) os = (Ok snapshots, os') →
  notifications (trace os')
  = notifications (trace os)
    ++ imap (λ k s, (S k, length snapshots, month s)) snapshots.
Proof.
  rewrite collect_snapshots_run.
  destruct (get_monthly_commits W repo_path branch os) as [[commits|e] os1] eqn:Hget;
    [|done].
  intros [Hlen H]%enumerate_progress. rewrite H, Hlen. f_equal.
  - pose proof (f_equal snd Hget) as Hos. rewrite get_monthly_commits_run in Hos.
    simpl in Hos. subst os1. simpl. by rewrite notifications_app, app_nil_r.
  - apply imap_ext. intros k s _. simpl. do 2 f_equal. lia.
Qed.

Lemma progress_once_a_month_witness :
  notifications (trace demo_run.2)
  = notifications (trace boot)
    ++ imap (λ k s, (S k, length demo_snapshots, month s)) demo_snapshots.
Proof.
  apply (progress_once_a_month demo "/repo" "main" (Some ["apps/web"]) boot).
  vm_compute. reflexivity.
Defined.

(** ** Lines that abort *)

Lemma for_each_Raise {A S} (body : S → A → outcome S) s l e :
  for_each body s l = Raise e ↔
  ∃ l1 x l2 s1, l = l1 ++ x :: l2 ∧ for_each body s l1 = Ok s1 ∧ body s1 x = Raise e.
Proof.
  revert s. induction l as [|x l IH]; intros s; simpl.
  - split; [done|]. by intros ([|??] & ? & ? & ? & ? & _).
  - destruct (body s x) as [s'|e'] eqn:Hx; simpl.
    + rewrite IH. split.
      * intros (l1 & y & l2 & s1 & -> & H1 & Hy).
        exists (x :: l1), y, l2, s1. simpl. by rewrite Hx.
      * intros ([|x' l1] & y & l2 & s1 & Hl & H1 & Hy); simpl in *.
        -- injection Hl as <- <-. injection H1 as <-. congruence.
        -- injection Hl as <- ->. rewrite Hx in H1. simpl in H1.
           by exists l1, y, l2, s1.
    + split.
      * intros [= <-]. by exists [], x, l, s.
      * intros ([|x' l1] & y & l2 & s1 & Hl & H1 & Hy); simpl in *.
        -- injection Hl as <- <-. injection H1 as <-. congruence.
        -- injection Hl as <- ->. by rewrite Hx in H1.
Qed.

Lemma for_list_Ok_inv {A B} (f : A → outcome B) l ys :
  for_list f l = Ok ys → Forall2 (λ x y, f x = Ok y) l ys.
Proof.
  revert ys. induction l as [|x l IH]; intros ys; simpl.
  - intros [= <-]. constructor.
  - intros (y & Hy & H)%outcome_bind_Ok.
    apply outcome_bind_Ok in H as (ys' & Hys & [= <-]).
    constructor; [done|by apply IH].
Qed.

Lemma for_list_Raise {A B} (f : A → outcome B) l e :
  for_list f l = Raise e →
  ∃ l1 x l2, l = l1 ++ x :: l2 ∧ Forall (λ x, ∃ y, f x = Ok y) l1 ∧ f x = Raise e.
Proof.
  induction l as [|x l IH]; simpl; [done|].
  destruct (f x) as [y|e'] eqn:Hx; simpl.
  - destruct (for_list f l) as [ys|e'']; simpl; [done|].
    intros [= ->]. destruct IH as (l1 & x' & l2 & -> & Hl1 & Hx'); [done|].
    exists (x :: l1), x', l2. split; [done|]. split; [|done].
    constructor; [by eexists|done].
  - intros [= ->]. exists [], x, l. by repeat split.
Qed.

Lemma read_row_Ok_countable line row :
  read_row line = Ok row → countable_line line.
Proof.
  destruct line as [|c rest]; [done|]. unfold countable_line.
  rewrite read_row_cases.
  destruct (PyStr.startswith "files" _); [by left|].
  destruct (PyStr.isdigit c); simpl; [|by right; left].
  destruct (bool_decide_reflect
              (length (PyStr.split_on ","%char (String c rest)) < 5)%nat)
    as [Hlen|Hlen]; [by right; right; left|].
  unfold getitem.
  destruct (PyStr.split_on ","%char (String c rest) !! 1%nat) as [lang|]; [|done].
  destruct (PyStr.split_on ","%char (String c rest) !! 4%nat) as [field|]; [|done].
  simpl. destruct (PyStr.int field) as [code|] eqn:Hcode; [|done].
  intros _. do 3 right. by exists code.
Qed.

Lemma read_row_Raise line e :
  read_row line = Raise e →
  (line = "" ∧ e = IndexError)
  ∨ (e = ValueError ∧ ∃ c rest field,
       line = String c rest ∧ PyStr.isdigit c = true
       ∧ PyStr.split_on ","%char line !! 4%nat = Some field
       ∧ PyStr.int field = None).
Proof.
  destruct line as [|c rest].
  - intros H. left. split; [done|]. by injection H as <-.
  - rewrite read_row_cases.
    destruct (PyStr.startswith "files" _); [done|].
    destruct (PyStr.isdigit c) eqn:Hc; simpl; [|done].
    destruct (bool_decide_reflect
                (length (PyStr.split_on ","%char (String c rest)) < 5)%nat)
      as [Hlen|Hlen]; [done|].
    destruct (lookup_lt_is_Some_2 (PyStr.split_on ","%char (String c rest)) 1)
      as [lang H1]; [lia|].
    destruct (lookup_lt_is_Some_2 (PyStr.split_on ","%char (String c rest)) 4)
      as [field H4]; [lia|].
    unfold getitem. rewrite H1, H4. simpl.
    destruct (PyStr.int field) eqn:Hint; [done|]. simpl.
    intros [= <-]. right. split; [done|]. by exists c, rest, field.
Qed.

(** X9. The parsing loop ends with a result exactly when every line is
    countable. Otherwise it raises at the first line that is not:
    [IndexError] when that line is empty, [ValueError] when its fifth field
    is no integer; the lines before it were all countable. *)
Theorem parse_cloc_aborts_at_first_bad_line out :
  let lines := PyStr.splitlines (PyStr.strip out) in
  ((∃ r, parse_cloc out = Ok r) ↔ Forall countable_line lines)
  ∧ ∀ e, parse_cloc out = Raise e →
      ∃ good bad rest,
        lines = good ++ bad :: rest ∧ Forall countable_line good
        ∧ ((bad = "" ∧ e = IndexError)
           ∨ (e = ValueError ∧ ∃ c rest' field,
                bad = String c rest' ∧ PyStr.isdigit c = true
                ∧ PyStr.split_on ","%char bad !! 4%nat = Some field
                ∧ PyStr.int field = None)).
Proof.
  intros lines. split; [split|].
  - intros [r Hr]. rewrite parse_cloc_run in Hr. fold lines in Hr.
    destruct (for_list read_row lines) as [rows|e] eqn:Hrows; [|done].
    apply for_list_Ok_inv in Hrows. clear Hr.
    induction Hrows as [|line row ls rs Hrow _ IH]; constructor; [|done].
    by eapply read_row_Ok_countable.
  - intros Hlines. rewrite parse_cloc_run. fold lines.
    destruct (for_list_total read_row lines) as [rows ->]; [|by eexists].
    eapply Forall_impl; [exact Hlines|]. apply read_row_countable.
  - intros e. rewrite parse_cloc_run. fold lines.
    destruct (for_list read_row lines) as [rows|e'] eqn:Hrows; [done|].
    intros [= ->]. apply for_list_Raise in Hrows as (good & bad & rest & Hl & Hgood & Hbad).
    exists good, bad, rest. split; [done|]. split.
    + eapply Forall_impl; [exact Hgood|]. intros l [row Hrow].
      by eapply read_row_Ok_countable.
    + by apply read_row_Raise.
Qed.

Lemma parse_cloc_aborts_at_first_bad_line_witness :
  ∃ good bad rest,
    PyStr.splitlines (PyStr.strip ("1,C,0,0,7" +:+ LF +:+ LF +:+ "1,SUM,0,0,7"))
      = good ++ bad :: rest
    ∧ Forall countable_line good
    ∧ ((bad = "" ∧ IndexError = IndexError)
       ∨ (IndexError = ValueError ∧ ∃ c rest' field,
            bad = String c rest' ∧ PyStr.isdigit c = true
            ∧ PyStr.split_on ","%char bad !! 4%nat = Some field
            ∧ PyStr.int field = None)).
Proof.
  apply (proj2 (parse_cloc_aborts_at_first_bad_line
                  ("1,C,0,0,7" +:+ LF +:+ LF +:+ "1,SUM,0,0,7")) IndexError).
  vm_compute. reflexivity.
Defined.

Lemma monthly_commits_Raise out e :
  monthly_commits out = Raise e ↔
  ∃ good bad rest,
    PyStr.splitlines (PyStr.strip out) = good ++ bad :: rest
    ∧ Forall (λ l, ∃ c, reads l c) good ∧ read_commit bad = Raise e.
Proof.
  unfold monthly_commits.
  destruct (for_each monthly_step ∅ _) as [monthly|e'] eqn:Hfold; simpl.
  - split.
    + intros Hraise. exfalso.
      destruct (for_list_lookup monthly (sorted (keys monthly))) as (cs & Hcs & _).
      { apply Forall_forall. intros k. by rewrite elem_of_sorted_keys. }
      by rewrite Hcs in Hraise.
    + intros (good & bad & rest & Hl & Hgood & Hbad). exfalso.
      rewrite Hl, for_each_app in Hfold.
      destruct (for_each monthly_step ∅ good) as [m1|]; simpl in Hfold; [|done].
      apply outcome_bind_Ok in Hfold as (m2 & Hstep & _).
      apply monthly_step_inv in Hstep as (e0 & He0 & _).
      unfold reads in He0. congruence.
  - rewrite for_each_Raise in Hfold.
    destruct Hfold as (good & bad & rest & m1 & Hl & Hgood & Hbad).
    apply monthly_fold_inv in Hgood as (es & Hes & _).
    assert (read_commit bad = Raise e') as Hbad'.
    { unfold monthly_step in Hbad.
      destruct (read_commit bad) as [c|e0]; simpl in Hbad; [done|]. by injection Hbad as ->. }
    assert (Forall (λ l, ∃ c, reads l c) good) as Hgood.
    { clear -Hes. induction Hes; constructor; eauto. }
    split.
    + intros [= <-]. by exists good, bad, rest.
    + intros (good' & bad' & rest' & Hl' & Hgood' & Hbad''). f_equal.
      rewrite Hl' in Hl. clear -Hl Hgood Hgood' Hbad' Hbad''.
      revert good' Hl Hgood'. induction Hgood as [|g good [c Hc] _ IH];
        intros [|g' good'] Hl Hgood'; simpl in *.
      * injection Hl as <- _. congruence.
      * injection Hl as <- _. apply Forall_cons in Hgood' as [[c Hc] _].
        unfold reads in Hc. congruence.
      * injection Hl as -> _. unfold reads in Hc. congruence.
      * injection Hl as _ Hl. apply Forall_cons in Hgood' as [_ Hgood'].
        by apply (IH good').
Qed.

Lemma string_length_app a b :
  String.length (a +:+ b) = (String.length a + String.length b)%nat.
Proof. induction a as [|c a IH]; simpl; [done|]. by rewrite IH. Qed.

(** A string of fewer than seven characters is no date. *)
Lemma fromisoformat_short s :
  (String.length s < 7)%nat → Iso.fromisoformat s = None.
Proof.
  intros Hlen. destruct (Iso.fromisoformat s) as [d|] eqn:Hd; [|done].
  apply fromisoformat_year_month in Hd as (r & -> & Hym & _).
  rewrite string_length_app, Hym in Hlen. lia.
Qed.

(** X10. When [git log] exits with zero and a line of its output comes
    after commit lines only, [get_monthly_commits] raises [IndexError] if
    that line has fewer than three fields, and [ValueError] if it has three
    but the second and the third, joined by [T], are too short to be a date:
    fewer than seven characters. No entry of the lines before it is
    returned. *)
Theorem one_bad_line_aborts_history W repo_path branch os result good bad rest :
  exits_zero (log_answer W repo_path branch os) result →
  PyStr.splitlines (PyStr.strip (stdout result)) = good ++ bad :: rest →
  Forall (λ l, ∃ c, commit_line l c) good →
  ((length (PyStr.split bad) < 3)%nat →
   (get_monthly_commits W repo_path branch os).1 = Raise IndexError)
  ∧ (∀ h d t more, PyStr.split bad = h :: d :: t :: more →
       (String.length (d +:+ "T" +:+ t) < 7)%nat →
       (get_monthly_commits W repo_path branch os).1 = Raise ValueError).
Proof.
  intros [Hrun Hcode] Hlines Hgood.
  assert (∀ e, read_commit bad = Raise e →
               (get_monthly_commits W repo_path branch os).1 = Raise e) as Hraise.
  { intros e He. rewrite get_monthly_commits_run, Hrun. simpl.
    rewrite bool_decide_false by (by intros ?).
    apply monthly_commits_Raise. exists good, bad, rest.
    split; [done|]. split; [|done].
    eapply Forall_impl; [exact Hgood|]. intros l [c Hc]. exists c.
    by apply reads_commit_line. }
  split.
  - intros Hlen. apply Hraise. unfold read_commit, getitem.
    destruct (PyStr.split bad) as [|h [|d [|t more]]]; simpl in *; (done || lia).
  - intros h d t more Hsplit Hshort. apply Hraise. unfold read_commit, getitem.
    rewrite Hsplit. simpl. by rewrite fromisoformat_short.
Qed.

Lemma one_bad_line_aborts_history_witness :
  (get_monthly_commits truncated_history "/repo" "main" boot).1 = Raise IndexError
  ∧ (get_monthly_commits misdated_history "/repo" "main" boot).1 = Raise ValueError.
Proof.
  split.
  - refine (proj1 (one_bad_line_aborts_history truncated_history "/repo" "main" boot
                     {| returncode := 0;
                        stdout := "a1 2024-01-05 10:00:00 +0100" +:+ LF
                                  +:+ "a2 2024-01-20" +:+ LF;
                        stderr := "" |}
                     ["a1 2024-01-05 10:00:00 +0100"] "a2 2024-01-20" [] _ _ _) _).
    + split; [vm_compute; reflexivity|reflexivity].
    + vm_compute. reflexivity.
    + apply Forall_cons_2; [|apply Forall_nil_2].
      eapply history_commit_line; [vm_compute; reflexivity|vm_compute; eexists; reflexivity].
    + vm_compute. lia.
  - refine (proj2 (one_bad_line_aborts_history misdated_history "/repo" "main" boot
                     {| returncode := 0;
                        stdout := "a1 2024-01-05 10:00:00 +0100" +:+ LF
                                  +:+ "a2 Jan 5 2024" +:+ LF;
                        stderr := "" |}
                     ["a1 2024-01-05 10:00:00 +0100"] "a2 Jan 5 2024"
                     [] _ _ _) "a2" "Jan" "5" ["2024"] _ _).
    + split; [vm_compute; reflexivity|reflexivity].
    + vm_compute. reflexivity.
    + apply Forall_cons_2; [|apply Forall_nil_2].
      eapply history_commit_line; [vm_compute; reflexivity|vm_compute; eexists; reflexivity].
    + vm_compute. reflexivity.
    + vm_compute. lia.
Defined.

(** ** Percentages within bounds *)

(** X11. When the count of a subdirectory is between 0 and a positive
    [repo_total], or the subdirectory is no key, [subdir_pct] returns a
    percentage between 0 and 100. *)
Theorem subdir_pct_bounds self subdir :
  0 < repo_total self →
  0 ≤ default 0 (subdir_totals self !! subdir) ≤ repo_total self →
  ∃ pct, subdir_pct self subdir = Ok pct
         ∧ Qcanon.Qcle (Qc_of_Z 0) pct ∧ Qcanon.Qcle pct (Qc_of_Z 100).
Proof.
  intros Hpos [Hlo Hhi]. rewrite subdir_pct_cases.
  pose proof float_overflow_large as Hlarge.
  rewrite bool_decide_false by lia.
  rewrite bool_decide_false by (rewrite !Z.abs_eq by lia; nia).
  eexists. split; [done|].
  set (a := Qc_of_Z (default 0 (subdir_totals self !! subdir))).
  set (b := Qc_of_Z (repo_total self)).
  assert (Qcanon.Qcle (Qc_of_Z 0) a) as Ha by (by apply (proj1 (Z2Qc_inj_le _ _))).
  assert (Qcanon.Qcle a b) as Hab by (by apply (proj1 (Z2Qc_inj_le _ _))).
  assert (Qcanon.Qclt (Qc_of_Z 0) b) as Hb by (by apply (proj1 (Z2Qc_inj_lt _ _))).
  assert (Qcanon.Qcle (Qc_of_Z 0) (Qc_of_Z 100)) as H100
    by (by apply (proj1 (Z2Qc_inj_le _ _))).
  rewrite Z2Qc_inj_0 in Ha, Hb, H100 |- *.
  pose proof (Qcanon.Qclt_le_weak _ _ (Qcinv_pos _ Hb)) as Hinv.
  pose proof (Qcanon.Qcmult_le_compat_r _ _ _ Ha Hinv) as Hq0.
  rewrite Qcanon.Qcmult_0_l in Hq0.
  pose proof (Qcanon.Qcmult_le_compat_r _ _ _ Hab Hinv) as Hq1.
  rewrite Qcanon.Qcmult_inv_r in Hq1 by (by apply not_symmetry, Qcanon.Qclt_not_eq).
  pose proof (Qcanon.Qcmult_le_compat_r _ _ _ Hq0 H100) as G0.
  rewrite Qcanon.Qcmult_0_l in G0.
  pose proof (Qcanon.Qcmult_le_compat_r _ _ _ Hq1 H100) as G1.
  rewrite Qcanon.Qcmult_1_l in G1.
  split; [exact G0|exact G1].
Qed.

Lemma subdir_pct_bounds_witness :
  ∃ pct,
    subdir_pct {| month := "2024-02"; commit_hash := "a3";
                  commit_date := {| dt_year := 2024; dt_month := 2; dt_day := 3;
                                    dt_hour := 18; dt_minute := 45;
                                    dt_second := 10; dt_tzinfo := None |};
                  repo_total := 160; repo_by_lang := ∅;
                  subdir_totals := {[ "apps/web/" := 40 ]};
                  subdir_by_lang := ∅ |} "apps/web/" = Ok pct
    ∧ Qcanon.Qcle (Qc_of_Z 0) pct ∧ Qcanon.Qcle pct (Qc_of_Z 100).
Proof.
  apply subdir_pct_bounds.
  - simpl. lia.
  - cbn [repo_total subdir_totals]. rewrite lookup_singleton_eq. simpl. lia.
Defined.

(** ** Snapshots and their dates *)

Lemma monthly_commits_read out commits :
  monthly_commits out = Ok commits → Forall (λ e, ∃ line, reads line e) commits.
Proof.
  intros Hc. pose proof Hc as Hc'. unfold monthly_commits in Hc'.
  apply outcome_bind_Ok in Hc' as (monthly & Hfold & _).
  apply monthly_fold_inv in Hfold as (es & Hes & _).
  destruct (monthly_commits_spec out) as (commits' & Hc2 & _ & _ & Hlast).
  { clear -Hes. induction Hes; constructor; eauto. }
  rewrite Hc in Hc2. injection Hc2 as <-.
  eapply Forall_impl; [exact Hlast|]. intros e (_ & line & _ & _ & Hr & _).
  by exists line.
Qed.

(** The snapshots of a run that returns are those of entries read from
    lines of the history. *)
Lemma collect_snapshots_entries W repo_path branch subdirs on_progress os snapshots os' :
  collect_snapshots W repo_path branch subdirs on_progress os = (Ok snapshots, os') →
  ∃ commits, Forall2 snapshot_for commits snapshots
             ∧ Forall (λ e, ∃ line, reads line e) commits.
Proof.
  rewrite collect_snapshots_run.
  destruct (get_monthly_commits W repo_path branch os) as [[commits|e] os1] eqn:Hget;
    [|done].
  intros H. exists commits. split.
  - eapply for_enumerate_Forall2; [|exact H].
    intros i x os2 s os3. apply snapshot_of_entry.
  - rewrite get_monthly_commits_run in Hget.
    destruct (log_answer _ _ _ _) as [result|e]; [|done].
    destruct (bool_decide (returncode result ≠ 0)); [done|].
    injection Hget as Hget _. by eapply monthly_commits_read.
Qed.

(** X12. When [git log] exits with zero and every line of its output is
    a commit line, with a date of git's form, the month of every snapshot
    that [collect_snapshots] returns is the year and the month of the
    snapshot's commit date, written [YYYY-MM]. *)
Theorem snapshot_month_of_date W repo_path branch subdirs on_progress os result
    snapshots os' :
  exits_zero (log_answer W repo_path branch os) result →
  Forall (λ l, ∃ e, commit_line l e) (PyStr.splitlines (PyStr.strip (stdout result))) →
  collect_snapshots W repo_path branch subdirs on_progress os = (Ok snapshots, os') →
  Forall (λ s, month s = year_month (commit_date s)) snapshots.
Proof.
  intros _ _ (commits & Hfor & Hread)%collect_snapshots_entries.
  induction Hfor as [|e s es ss (Hm & _ & Hd) _ IH]; [constructor|].
  apply Forall_cons in Hread as [[line Hline] Hread].
  constructor; [|by apply IH].
  rewrite Hm, Hd. exact (proj1 (read_commit_month line e Hline)).
Qed.

Lemma snapshot_month_of_date_witness :
  Forall (λ s, month s = year_month (commit_date s)) demo_snapshots.
Proof.
  apply (snapshot_month_of_date demo "/repo" "main" (Some ["apps/web"])
           (Some report) boot {| returncode := 0; stdout := history; stderr := "" |}
           demo_snapshots demo_run.2).
  - split; [vm_compute; reflexivity|reflexivity].
  - cbn [stdout]. rewrite history_lines.
    repeat (apply Forall_cons_2;
            [eapply history_commit_line;
             [vm_compute; reflexivity|vm_compute; eexists; reflexivity]|]).
    apply Forall_nil_2.
  - vm_compute. reflexivity.
Defined.

(** ** The table of the command line *)

Lemma split_on_whole sep p :
  PyStr.mem sep p = false → PyStr.split_on sep p = [p].
Proof.
  unfold PyStr.split_on.
  induction p as [|c p IH]; simpl; [done|].
  rewrite (Ascii.eqb_sym c sep). destruct (Ascii.eqb sep c); [done|].
  intros H. by rewrite (IH H).
Qed.

Lemma split_on_field sep p s :
  PyStr.mem sep p = false →
  PyStr.split_on sep (p +:+ String sep s) = p :: PyStr.split_on sep s.
Proof.
  unfold PyStr.split_on.
  induction p as [|c p IH]; simpl.
  - by rewrite Ascii.eqb_refl.
  - rewrite (Ascii.eqb_sym c sep). destruct (Ascii.eqb sep c); [done|].
    intros H. by rewrite (IH H).
Qed.

(** [split] undoes [join] on fields that do not hold the separator. *)
Lemma split_on_join sep fields :
  fields ≠ [] → Forall (λ w, PyStr.mem sep w = false) fields →
  PyStr.split_on sep (PyText.join (String sep "") fields) = fields.
Proof.
  intros Hne Hall. induction Hall as [|p ps Hp Hps IH]; [done|].
  destruct ps as [|q ps].
  - by apply split_on_whole.
  - change (PyText.join (String sep "") (p :: q :: ps))
      with (p +:+ String sep (PyText.join (String sep "") (q :: ps))).
    rewrite split_on_field by done. f_equal. by apply IH.
Qed.

Lemma mem_pretty_N_go c x : ∀ s,
  (∀ d, (d < 10)%N → c ≠ pretty_N_char d) →
  PyStr.mem c s = false → PyStr.mem c (pretty_N_go x s) = false.
Proof.
  induction (N.lt_wf_0 x) as [x _ IH]; intros s Hc Hs.
  destruct (decide (x = 0)%N) as [->|Hx]; [by rewrite pretty_N_go_0|].
  rewrite pretty_N_go_step by lia. apply IH; [apply N.div_lt; lia|done|].
  simpl. destruct (Ascii.eqb_spec c (pretty_N_char (x `mod` 10))) as [Heq|_]; [|done].
  exfalso. apply (Hc (x `mod` 10)%N); [|done]. apply N.mod_lt. lia.
Qed.

(** The decimal form of an integer holds no comma. *)
Lemma str_no_comma n : PyStr.mem "," (PyText.str n) = false.
Proof.
  assert (∀ d, (d < 10)%N → ","%char ≠ pretty_N_char d) as Hc.
  { intros d _. unfold pretty_N_char. by repeat case_match. }
  assert (∀ p : positive, PyStr.mem "," (pretty p) = false) as Hpos.
  { intros p. unfold pretty, pretty_positive, pretty, pretty_N.
    rewrite decide_False by done. by apply mem_pretty_N_go. }
  unfold PyText.str, pretty, pretty_Z. destruct n as [|p|p]; [done|apply Hpos|].
  simpl. apply Hpos.
Qed.

Lemma mem_replace c old new s :
  c ≠ new → PyStr.mem c s = false → PyStr.mem c (PyText.replace old new s) = false.
Proof.
  intros Hnew. induction s as [|d s IH]; simpl; [done|].
  destruct (Ascii.eqb_spec c d) as [->|Hd]; [done|]. intros Hs.
  destruct (Ascii.eqb d old).
  - destruct (Ascii.eqb_spec c new); [done|]. by apply IH.
  - destruct (Ascii.eqb_spec c d); [done|]. by apply IH.
Qed.

Lemma mem_strip_chars c chars s :
  PyStr.mem c s = false → PyStr.mem c (PyStr.strip_chars chars s) = false.
Proof.
  intros Hs. unfold PyStr.strip_chars.
  destruct (PyStr.mem c (PyStr.rstrip_by _ _)) eqn:H; [|done].
  apply mem_rstrip, mem_lstrip in H. congruence.
Qed.

Lemma mem_app c s t :
  PyStr.mem c (s +:+ t) = PyStr.mem c s || PyStr.mem c t.
Proof.
  induction s as [|d s IH]; simpl; [done|]. by destruct (Ascii.eqb c d).
Qed.

Lemma parse_subdirs_no_comma arg :
  Forall (λ sd, PyStr.mem "," sd = false) (parse_subdirs arg).
Proof.
  unfold parse_subdirs. destruct (String.eqb arg ""); [constructor|].
  pose proof (split_on_no_sep ","%char arg) as Hsep.
  induction Hsep as [|w ws Hw _ IH]; [constructor|]. simpl.
  destruct (String.eqb_spec (PyStr.strip w) "") as [|Hne]; [done|].
  constructor; [|done]. unfold PyStr.strip.
  destruct (PyStr.mem _ (PyStr.rstrip_by _ _)) eqn:H; [|done].
  apply mem_rstrip, mem_lstrip in H. congruence.
Qed.

(** X13. When the tracked paths are those read from [--subdirs] and
    [collect_snapshots] returns, every line of [loc-data.csv], the header
    included, splits at its commas into the fields it was written from:
    two and one for each tracked path. *)
Theorem csv_lines_have_all_columns W repo_path branch arg on_progress os snapshots os' :
  collect_snapshots W repo_path branch (Some (parse_subdirs arg)) on_progress os
    = (Ok snapshots, os') →
  Forall (csv_line (2 + length (parse_subdirs arg)))
    (csv_writes snapshots (norm_subdirs (parse_subdirs arg))).
Proof.
  intros (commits & Hfor & Hread)%collect_snapshots_entries.
  pose proof (parse_subdirs_no_comma arg) as Hsd.
  set (subdirs := parse_subdirs arg) in *.
  assert (∀ fields, length fields = (2 + length subdirs)%nat →
            Forall (λ w, PyStr.mem "," w = false) fields →
            csv_line (2 + length subdirs) (PyText.join "," fields +:+ LF)) as Hline.
  { intros fields Hlen Hall. exists fields. split; [done|]. split; [|done].
    apply split_on_join; [|done]. by destruct fields. }
  unfold csv_writes. constructor.
  - apply Hline.
    + unfold header_parts, norm_subdirs. simpl. by rewrite !length_fmap.
    + unfold header_parts, norm_subdirs. repeat (constructor; [done|]).
      rewrite <-list_fmap_compose. apply Forall_fmap.
      eapply Forall_impl; [exact Hsd|]. intros sd Hc. simpl.
      apply mem_replace; [done|]. apply mem_strip_chars.
      rewrite mem_app. by rewrite (mem_strip_chars _ _ _ Hc).
  - apply Forall_fmap. clear Hsd.
    induction Hfor as [|e s es ss (Hm & _) _ IH]; [constructor|].
    apply Forall_cons in Hread as [[line Hl] Hread].
    constructor; [|by apply IH]. apply (Hline (row (norm_subdirs subdirs) s)).
    + unfold row, norm_subdirs. simpl. by rewrite !length_fmap.
    + unfold row. constructor.
      { rewrite Hm. exact (proj2 (read_commit_month line e Hl)). }
      constructor; [apply str_no_comma|].
      apply Forall_fmap, Forall_forall. intros sd _. apply str_no_comma.
Qed.

Lemma csv_lines_have_all_columns_witness :
  Forall (csv_line 3) (csv_writes demo_snapshots ["apps/web/"]).
Proof.
  apply (csv_lines_have_all_columns demo "/repo" "main" "apps/web" (Some report) boot
           demo_snapshots demo_run.2).
  vm_compute. reflexivity.
Defined.

(** ** The bars of the monthly growth *)

Lemma bind_Ok {A B} (a : A) (k : A → outcome B) : (Ok a ≫= k) = k a.
Proof. done. Qed.

Lemma for_list_seq {B} (g : nat → outcome B) (h : nat → B) n : ∀ a,
  (∀ i, (a ≤ i < a + n)%nat → g i = Ok (h i)) →
  for_list g (seq a n) = Ok (h <$> seq a n).
Proof.
  induction n as [|n IH]; intros a Hg; [done|]. simpl.
  rewrite (Hg a) by lia. simpl. rewrite (IH (S a)); [done|].
  intros i Hi. apply Hg. lia.
Qed.

Lemma sum_of_app l k : sum_of (l ++ k) = sum_of l + sum_of k.
Proof. unfold sum_of. induction l as [|x l IH]; simpl; lia. Qed.

(** Differences of consecutive values add up to the last less the first. *)
Lemma sum_of_differences (F : nat → Z) n :
  sum_of ((λ i, F i - F (i - 1)%nat) <$> seq 1 n) = F n - F 0%nat.
Proof.
  induction n as [|n IH]; [simpl; lia|].
  rewrite seq_S, fmap_app, sum_of_app, IH. simpl.
  replace (n - 0)%nat with n by lia. unfold sum_of. simpl. lia.
Qed.

Lemma deltas_spec f first mid last :
  ∃ ys, deltas f (first :: mid ++ [last]) = Ok ys
        ∧ length ys = length (mid ++ [last])
        ∧ sum_of ys = f last - f first.
Proof.
  set (snapshots := first :: mid ++ [last]).
  set (F := λ i, f (default first (snapshots !! i))).
  assert (length snapshots - 1 = length (mid ++ [last]))%nat as Hlen
    by (unfold snapshots; simpl; lia).
  exists ((λ i, F i - F (i - 1)%nat) <$> seq 1 (length snapshots - 1)).
  split; [|split].
  - unfold deltas. apply for_list_seq. intros i Hi. unfold getitem.
    destruct (lookup_lt_is_Some_2 snapshots i) as [cur Hcur]; [lia|].
    destruct (lookup_lt_is_Some_2 snapshots (i - 1)) as [prev Hprev]; [lia|].
    unfold F. by rewrite Hcur, Hprev.
  - by rewrite length_fmap, length_seq.
  - rewrite sum_of_differences, Hlen. unfold F, snapshots.
    rewrite length_app. simpl.
    replace (length mid + 1)%nat with (S (length mid)) by lia. simpl.
    rewrite lookup_app_r by lia. by rewrite Nat.sub_diag.
Qed.

Lemma snd_enumerate {A} (l : list A) : (enumerate l).*2 = l.
Proof.
  unfold enumerate.
  assert (∀ g : nat → nat, (imap (λ i x, (g i, x)) l).*2 = l) as H.
  { induction l as [|x l IH]; intros g; [done|]. simpl. f_equal.
    apply (IH (g ∘ S)). }
  apply (H id).
Qed.

(** X14. On two snapshots or more, the chart of the monthly growth has a
    series for the repository followed by one for each tracked path, in
    order; each has one bar for every month but the first, and the bars
    of a series add up to the count of the last snapshot less that of the
    first. Building the chart raises nothing. *)
Theorem monthly_delta_bars_add_up first mid last subdirs :
  let snapshots := first :: mid ++ [last] in
  let months := month <$> mid ++ [last] in
  let count sd s := default 0 (subdir_totals s !! sd) in
  ∃ chart total tracked,
    _build_monthly_delta_chart snapshots subdirs = Ok chart
    ∧ field "data" chart = Some (VList (total :: tracked))
    ∧ bars months (repo_total last - repo_total first) total
    ∧ Forall2 (λ sd trace, field "name" trace = Some (VStr (_subdir_label sd))
                           ∧ bars months (count sd last - count sd first) trace)
        subdirs tracked.
Proof.
  intros snapshots months count. subst snapshots.
  unfold _build_monthly_delta_chart.
  rewrite bool_decide_false by (simpl; rewrite length_app; simpl; lia).
  change (drop 1 (first :: mid ++ [last])) with (mid ++ [last]). fold months.
  destruct (deltas_spec repo_total first mid last) as (ys & -> & Hlen & Hsum).
  rewrite bind_Ok.
  set (total := VDict (("x", _) :: _)).
  assert (bars months (repo_total last - repo_total first) total) as Htotal.
  { exists ys. unfold months. by rewrite length_fmap. }
  set (body := λ (traces : list value) (p : nat * string), _).
  assert (∀ traces i sd, ∃ trace,
            body traces (i, sd) = Ok (traces ++ [trace])
            ∧ field "name" trace = Some (VStr (_subdir_label sd))
            ∧ bars months (count sd last - count sd first) trace) as Hbody.
  { intros traces i sd. unfold body, getitem.
    destruct (lookup_lt_is_Some_2 COLORS (i mod length COLORS)) as [color ->].
    { by apply Nat.mod_upper_bound. }
    cbn [or_raise]. rewrite bind_Ok.
    destruct (deltas_spec (λ s, default 0 (subdir_totals s !! sd)) first mid last)
      as (zs & -> & Hlenz & Hsumz).
    rewrite bind_Ok. eexists. split; [done|]. split; [done|].
    exists zs. unfold months. by rewrite length_fmap. }
  assert (∀ l traces, ∃ rest,
            for_each body traces l = Ok (traces ++ rest)
            ∧ Forall2 (λ p trace, field "name" trace = Some (VStr (_subdir_label p.2))
                                  ∧ bars months (count p.2 last - count p.2 first) trace)
                l rest) as Hloop.
  { clearbody body. induction l as [|[i sd] l IH]; intros traces.
    - exists []. by rewrite app_nil_r.
    - change (for_each body traces ((i, sd) :: l))
        with (body traces (i, sd) ≫= λ s', for_each body s' l).
      destruct (Hbody traces i sd) as (trace & -> & Hname & Hbars).
      rewrite bind_Ok. destruct (IH (traces ++ [trace])) as (rest & -> & Hrest).
      exists (trace :: rest). split; [by rewrite <-app_assoc|]. by constructor. }
  destruct (Hloop (enumerate subdirs) [total]) as (rest & -> & Hrest).
  rewrite bind_Ok. eexists _, total, rest.
  split; [done|]. split; [done|]. split; [done|].
  rewrite <-(snd_enumerate subdirs) at 1. by apply Forall2_fmap_l.
Qed.
